(** * text_statistics: readability scores over a rule-based syllable estimator

    A shallow embedding of [text_statistics.py] and the properties of its
    counters, its syllable estimator and its formula layer.

    Modelling conventions.
    - A Python [str] is a [string]; its characters are the code points
      0..255 (Latin-1).  [str.lower] is modelled on that range.
    - The [re] patterns of the module are terms of a small regular
      expression syntax, run by a backtracking matcher with Python's
      priorities (leftmost match, greedy quantifiers, first alternative
      first).  Every pattern of the module consumes at least one character,
      and matches of length zero are not modelled.
    - Python numbers are a tagged union of [int], [Decimal] and [float]; a
      [Decimal] and a [float] are represented by their exact rational value.
      An operation on [Decimal]s returns the exact result rounded to the 28
      significant digits of the default context (round-half-even); a [float]
      is a binary64 value, obtained by rounding to 53 significant bits.
    - A raised exception is the [Raise] branch of [result]. *)

From Stdlib Require Import ZArith QArith Qround Qabs Qpower List String Ascii Bool Lia.
Import ListNotations.
Open Scope string_scope.

(* ================================================================== *)
(** ** Characters and character classes *)

Module Chars.

Definition cls := ascii -> bool.

Definition code (c : ascii) : N := N_of_ascii c.

(** [a-b] *)
Definition range (a b : ascii) : cls :=
  fun c => (code a <=? code c)%N && (code c <=? code b)%N.

(** [[abc]] *)
Fixpoint one_of (s : string) : cls :=
  fun c =>
    match s with
    | EmptyString => false
    | String a s' => Ascii.eqb a c || one_of s' c
    end.

Definition chr (a : ascii) : cls := fun c => Ascii.eqb a c.

Definition union (p q : cls) : cls := fun c => p c || q c.

(** [[^...]] *)
Definition neg (p : cls) : cls := fun c => negb (p c).

Definition newline : ascii := ascii_of_N 10.

Definition lower_az : cls := range "a" "z".
Definition upper_AZ : cls := range "A" "Z".
Definition digit_09 : cls := range "0" "9".

(** [str.lower] on one Latin-1 character: A-Z, and the accented capitals
    U+00C0..U+00DE except the multiplication sign U+00D7, move up by 32. *)
Definition lower_char (c : ascii) : ascii :=
  let n := code c in
  if ((65 <=? n) && (n <=? 90))%N then ascii_of_N (n + 32)
  else if ((192 <=? n) && (n <=? 222) && negb (n =? 215))%N then ascii_of_N (n + 32)
  else c.

End Chars.
Import Chars.

Fixpoint lower (s : string) : string :=
  match s with
  | EmptyString => EmptyString
  | String c s' => String (lower_char c) (lower s')
  end.

Definition len (s : string) : nat := String.length s.

(** [text.split(sep)] for a one-character separator. *)
Fixpoint str_split (sep : ascii) (s : string) : list string :=
  match s with
  | EmptyString => [EmptyString]
  | String c s' =>
      if Ascii.eqb c sep then EmptyString :: str_split sep s'
      else match str_split sep s' with
           | w :: ws => String c w :: ws
           | [] => [String c EmptyString]
           end
  end.

(* ================================================================== *)
(** ** Regular expressions *)

Module Re.

Inductive re : Type :=
| Eps
| Chr (c : cls)            (* one character of a class *)
| Any                      (* .  : any character but a newline *)
| Seq (r1 r2 : re)
| Alt (r1 r2 : re)         (* r1|r2 *)
| Opt (r : re)             (* r? , greedy *)
| Many (n : nat) (c : cls) (* c{n,} , greedy; c+ is Many 1 c *)
| Bol                      (* ^ *)
| Eol                      (* $ *)
| Twice (c : cls).         (* (c)\1 : a character of c, then the same one *)

(** A literal string. *)
Fixpoint lit (s : string) : re :=
  match s with
  | EmptyString => Eps
  | String a EmptyString => Chr (chr a)
  | String a s' => Seq (Chr (chr a)) (lit s')
  end.

(** [cat [r1; ...; rn]] is the concatenation r1...rn. *)
Fixpoint cat (rs : list re) : re :=
  match rs with
  | [] => Eps
  | [r] => r
  | r :: rs' => Seq r (cat rs')
  end.

(** [r{n}] *)
Fixpoint times (n : nat) (r : re) : re :=
  match n with
  | O => Eps
  | S O => r
  | S n' => Seq r (times n' r)
  end.

Definition K := bool -> string -> option string.

(** Greedy [c{n,}]: take as many as possible, give back one at a time. *)
Fixpoint many (c : cls) (n : nat) (bos : bool) (s : string) (k : K) : option string :=
  let stop := match n with O => k bos s | S _ => None end in
  match s with
  | String a s' =>
      if c a then
        match many c (pred n) false s' k with
        | Some r => Some r
        | None => stop
        end
      else stop
  | EmptyString => stop
  end.

(** [m r bos s k]: match [r] at the head of [s], then continue with [k];
    [bos] tells whether [s] starts at the beginning of the subject.  The
    answer is the text left after the whole match. *)
Fixpoint m (r : re) (bos : bool) (s : string) (k : K) {struct r} : option string :=
  match r with
  | Eps => k bos s
  | Chr c =>
      match s with
      | String a s' => if c a then k false s' else None
      | EmptyString => None
      end
  | Any =>
      match s with
      | String a s' => if Ascii.eqb a newline then None else k false s'
      | EmptyString => None
      end
  | Seq r1 r2 => m r1 bos s (fun b t => m r2 b t k)
  | Alt r1 r2 =>
      match m r1 bos s k with
      | Some t => Some t
      | None => m r2 bos s k
      end
  | Opt r1 =>
      match m r1 bos s k with
      | Some t => Some t
      | None => k bos s
      end
  | Many n c => many c n bos s k
  | Bol => if bos then k bos s else None
  | Eol =>
      match s with
      | EmptyString => k bos s
      | String a EmptyString => if Ascii.eqb a newline then k bos s else None
      | _ => None
      end
  | Twice c =>
      match s with
      | String a (String b s') =>
          if c a && Ascii.eqb a b then k false s' else None
      | _ => None
      end
  end.

(** The match of [r] at the head of [s]: the number of characters taken. *)
Definition match_at (r : re) (bos : bool) (s : string) : option nat :=
  match m r bos s (fun _ t => Some t) with
  | Some t => Some (len s - len t)%nat
  | None => None
  end.

(** [pattern.search(s)] as a truth value. *)
Fixpoint search_from (r : re) (bos : bool) (s : string) : bool :=
  match match_at r bos s with
  | Some _ => true
  | None =>
      match s with
      | EmptyString => false
      | String _ s' => search_from r false s'
      end
  end.

Definition search (r : re) (s : string) : bool := search_from r true s.

(** [pattern.sub('', s)]: scan from the left; [skip] characters are still
    part of the match found last. *)
Fixpoint sub_from (r : re) (bos : bool) (s : string) (skip : nat) : string :=
  match s with
  | EmptyString => EmptyString
  | String a s' =>
      match skip with
      | S j => sub_from r false s' j
      | O =>
          match match_at r bos s with
          | Some (S j) => sub_from r false s' j
          | _ => String a (sub_from r false s' 0)
          end
      end
  end.

Definition sub_empty (r : re) (s : string) : string := sub_from r true s 0.

(** [pattern.findall(s)] for a pattern without groups: the matched texts. *)
Fixpoint findall_from (r : re) (bos : bool) (s : string) (skip : nat) : list string :=
  match s with
  | EmptyString => []
  | String a s' =>
      match skip with
      | S j => findall_from r false s' j
      | O =>
          match match_at r bos s with
          | Some (S j) => substring 0 (S j) s :: findall_from r false s' j
          | _ => findall_from r false s' 0
          end
      end
  end.

Definition findall (r : re) (s : string) : list string := findall_from r true s 0.

(** [pattern.split(s)]: the pieces between the matches. *)
Fixpoint split_from (r : re) (bos : bool) (s : string) (skip : nat) : list string :=
  match s with
  | EmptyString => [EmptyString]
  | String a s' =>
      match skip with
      | S j => split_from r false s' j
      | O =>
          match match_at r bos s with
          | Some (S j) => EmptyString :: split_from r false s' j
          | _ =>
              match split_from r false s' 0 with
              | p :: ps => String a p :: ps
              | [] => [String a EmptyString]
              end
          end
      end
  end.

Definition split (r : re) (s : string) : list string := split_from r true s 0.

End Re.
Import Re.


(* ================================================================== *)
(** ** Numbers: int, Decimal and float *)

Module Num.

Open Scope Z_scope.

(** Number of digits of a positive integer in base [b]. *)
Fixpoint ndigits_fuel (fuel : nat) (b z : Z) : Z :=
  match fuel with
  | O => 0
  | S f => if z <? b then 1 else 1 + ndigits_fuel f b (z / b)
  end.

Definition ndigits (b z : Z) : Z :=
  ndigits_fuel (S (Z.to_nat (Z.log2 z))) b z.

(** Nearest integer, ties to the even one. *)
Definition Qround_half_even (x : Q) : Z :=
  let f := Qfloor x in
  match Qcompare (x - inject_Z f) (1 # 2) with
  | Lt => f
  | Gt => f + 1
  | Eq => if Z.even f then f else f + 1
  end.

Definition Qpow (b : Z) (e : Z) : Q := Qpower (inject_Z b) e.

(** The exponent [e] with [b^(p-1) <= |q| / b^e < b^p], for [q <> 0]. *)
Definition sig_exponent (b p : Z) (q : Q) : Z :=
  let e0 := ndigits b (Z.abs (Qnum q)) - ndigits b (Zpos (Qden q)) - p in
  if Qle_bool (Qpow b p) (Qabs q / Qpow b e0) then e0 + 1 else e0.

(** [q] rounded to [p] significant digits in base [b], round-half-even. *)
Definition round_sig (b p : Z) (q : Q) : Q :=
  match Qnum q with
  | Z0 => 0%Q
  | _ =>
      let e := sig_exponent b p q in
      let c := Qround_half_even (Qabs q / Qpow b e) in
      Qred (inject_Z (Z.sgn (Qnum q) * c) * Qpow b e)
  end.

(** The default [decimal] context: 28 digits, ROUND_HALF_EVEN. *)
Definition round_ctx : Q -> Q := round_sig 10 28.

(** The binary64 value nearest to a rational (normal range). *)
Definition binary64 : Q -> Q := round_sig 2 53.

(** IEEE square root of a positive binary64 value: the root is taken with
    more than 100 extra bits, a sticky bit records inexactness, and the
    result is rounded once to 53 bits. *)
Definition fsqrt (q : Q) : Q :=
  let n := Qnum q in
  let d := Zpos (Qden q) in
  let e := (Z.log2 n - Z.log2 d - 202) / 2 in
  let x := (q / Qpow 4 e)%Q in
  let fx := Qfloor x in
  let s := Z.sqrt fx in
  let exact := Qeq_bool x (inject_Z (s * s)) in
  let t := 2 * s + (if exact then 0 else 1) in
  binary64 (inject_Z t * Qpow 2 (e - 1)).

End Num.
Import Num.

Inductive pyval : Type :=
| VInt (z : Z)
| VDec (q : Q)
| VFloat (q : Q).

Inductive exn : Type :=
| ZeroDivisionError
| DivisionByZero        (* decimal.DivisionByZero, a ZeroDivisionError *)
| InvalidOperation      (* decimal.InvalidOperation, raised for 0/0 *)
| TypeError
| ValueError
| Exception (msg : string).

Inductive result (A : Type) : Type :=
| Ok (a : A)
| Raise (e : exn).
Arguments Ok {A} a.
Arguments Raise {A} e.

Definition bind {A B} (x : result A) (f : A -> result B) : result B :=
  match x with
  | Ok a => f a
  | Raise e => Raise e
  end.

Notation "x <- e ;; k" := (bind e (fun x => k))
  (at level 61, e at next level, right associativity).

Definition value (v : pyval) : Q :=
  match v with
  | VInt z => inject_Z z
  | VDec q => q
  | VFloat q => q
  end.

(** A float literal of the source: the binary64 value nearest to it. *)
Definition float_lit (q : Q) : pyval := VFloat (binary64 q).

(** [Decimal(x)]: the conversion is exact, also from a float. *)
Definition D (v : pyval) : pyval := VDec (value v).

(** [+], [-] and [*]: exact on ints, rounded to the context on Decimals,
    rounded to binary64 on floats; Decimal and float do not mix. *)
Definition arith (zop : Z -> Z -> Z) (qop : Q -> Q -> Q) (a b : pyval) : result pyval :=
  match a, b with
  | VInt x, VInt y => Ok (VInt (zop x y))
  | VDec _, VFloat _ | VFloat _, VDec _ => Raise TypeError
  | VDec _, _ | _, VDec _ => Ok (VDec (round_ctx (qop (value a) (value b))))
  | _, _ => Ok (VFloat (binary64 (qop (value a) (value b))))
  end.

Definition py_add := arith Z.add Qplus.
Definition py_sub := arith Z.sub Qminus.
Definition py_mul := arith Z.mul Qmult.

Definition is_zero (v : pyval) : bool := (Qnum (value v) =? 0)%Z.

(** [/]: true division. *)
Definition py_div (a b : pyval) : result pyval :=
  match a, b with
  | VDec _, VFloat _ | VFloat _, VDec _ => Raise TypeError
  | VDec _, _ | _, VDec _ =>
      if is_zero b then Raise (if is_zero a then InvalidOperation else DivisionByZero)
      else Ok (VDec (round_ctx (value a / value b)))
  | _, _ =>
      if is_zero b then Raise ZeroDivisionError
      else Ok (VFloat (binary64 (value a / value b)))
  end.

(** [a >= b] compares the exact values. *)
Definition py_ge (a b : pyval) : bool := Qle_bool (value b) (value a).

(** [sum(xs)]: the additions run from the left, starting at the int 0. *)
Definition py_sum (xs : list pyval) : result pyval :=
  fold_left (fun acc x => a <- acc ;; py_add a x) xs (Ok (VInt 0)).

(** [math.sqrt(x)]: [x] is converted to a float first. *)
Definition math_sqrt (v : pyval) : result pyval :=
  let x := binary64 (value v) in
  match Qnum x with
  | Z0 => Ok (VFloat 0)
  | Zneg _ => Raise ValueError
  | Zpos _ => Ok (VFloat (fsqrt x))
  end.

(* ================================================================== *)
(** ** The module's pattern tables *)

Definition vowel : cls := one_of "aeiouy".

(** [[^\.!?]] *)
Definition _re_count_sentences : re := Chr (neg (one_of ".!?")).

(** [[A-Z]\.[A-Z]\.] and [Mr\.] *)
Definition _re_remove_fake_sentences : list re :=
  [ cat [Chr upper_AZ; lit "."; Chr upper_AZ; lit "."];
    lit "Mr." ].

(** [[^ ]] *)
Definition _re_count_words : re := Chr (neg (chr " ")).

(** [[^a-zA-Z0-9]] *)
Definition _re_letters_and_digits : re :=
  Chr (neg (union lower_az (union upper_AZ digit_09))).

Definition _syllable_problem_words : list (string * Z) :=
  [ ("simile", 3); ("forever", 3); ("shoreline", 2) ]%Z.

Fixpoint lookup (k : string) (d : list (string * Z)) : option Z :=
  match d with
  | [] => None
  | (k', v) :: d' => if String.eqb k k' then Some v else lookup k d'
  end.

(** These syllables would be counted as two but should be one. *)
Definition _sub_syllables : list re :=
  [ lit "cial";
    lit "tia";
    lit "cius";
    lit "cious";
    lit "giu";
    lit "ion";
    lit "iou";
    cat [lit "sia"; Eol];
    cat [Many 2 (neg (one_of "aeiuoyt")); lit "ed"; Eol];
    cat [Any; lit "ely"; Eol];
    cat [Chr (one_of "cg"); Opt (lit "h"); lit "e"; Opt (Chr (one_of "rsd")); Eol];
    cat [lit "rve"; Opt (lit "d"); Eol];
    cat [Chr vowel; Chr (one_of "dt"); lit "e"; Opt (lit "s"); Eol];
    cat [Chr vowel; Chr (neg (one_of "aeiouydt")); lit "e"; Opt (Chr (one_of "rsd")); Eol];
    cat [Chr vowel; lit "rse"; Eol] ].

(** These syllables would be counted as one but should be two. *)
Definition _add_syllables : list re :=
  [ lit "ia";
    lit "riet";
    lit "dien";
    lit "iu";
    lit "io";
    lit "ii";
    cat [Chr (one_of "aeiouym"); lit "bl"; Eol];
    times 3 (Chr (one_of "aeiou"));
    cat [Bol; lit "mc"];
    cat [lit "ism"; Eol];
    cat [Twice (neg vowel); lit "l"; Eol];
    cat [Chr (neg (chr "l")); lit "lien"];
    cat [Bol; lit "coa"; Chr (one_of "dglx"); Any];
    cat [Chr (neg (one_of "gq")); lit "ua"; Chr (neg (one_of "auieo"))];
    cat [lit "dnt"; Eol];
    cat [lit "uity"; Eol];
    cat [lit "ie"; Alt (lit "r") (lit "st"); Eol] ].

(** Single syllable prefixes and suffixes. *)
Definition _syllable_prefix_suffix : list re :=
  [ cat [Bol; lit "un"];
    cat [Bol; lit "fore"];
    cat [lit "ly"; Eol];
    cat [lit "less"; Eol];
    cat [lit "ful"; Eol];
    cat [lit "er"; Opt (lit "s"); Eol];
    cat [lit "ing"; Opt (lit "s"); Eol] ].

(** [[^a-z]] *)
Definition _re_syllable_non_word_chars : re := Chr (neg lower_az).

(** [[^aeiouy]+] *)
Definition _re_syllable_word_parts : re := Many 1 (neg vowel).

(* ================================================================== *)
(** ** The syllable estimator *)

Open Scope Z_scope.

(** The loop over [_syllable_prefix_suffix]: the state is the running
    count and the shrinking word. *)
Definition strip_affixes (text : string) : Z * string :=
  fold_left
    (fun '(prefix_suffix_count, text) pf =>
       (prefix_suffix_count + Z.of_nat (List.length (findall pf text)),
        sub_empty pf text))
    _syllable_prefix_suffix (0, text).

Definition count_word_parts (word_parts : list string) : Z :=
  fold_left
    (fun word_part_count word_part =>
       if String.eqb word_part "" then word_part_count else word_part_count + 1)
    word_parts 0.

(** The body of [syllable_count] after the word has been lowercased and
    stripped of what is neither a letter nor a digit. *)
Definition syllables_of_clean (text : string) : pyval :=
  match lookup text _syllable_problem_words with
  | Some n => VInt n
  | None =>
      let '(prefix_suffix_count, text) := strip_affixes text in
      let text := sub_empty _re_syllable_non_word_chars text in
      let word_parts := Re.split _re_syllable_word_parts text in
      let word_part_count := count_word_parts word_parts in
      let syllable_count := word_part_count + prefix_suffix_count in
      let syllable_count :=
        fold_left (fun n re_syllable => if search re_syllable text then n - 1 else n)
                  _sub_syllables syllable_count in
      let syllable_count :=
        fold_left (fun n re_syllable => if search re_syllable text then n + 1 else n)
                  _add_syllables syllable_count in
      let syllable_count := if syllable_count =? 0 then 1 else syllable_count in
      D (VInt syllable_count)
  end.

(** The word as the rules see it: lowercased, letters and digits only. *)
Definition clean_word (text : string) : string :=
  sub_empty _re_letters_and_digits (lower text).

Definition syllable_count (text : string) : pyval :=
  if (len text =? 0)%nat then VInt 0
  else syllables_of_clean (clean_word text).

(* ================================================================== *)
(** ** Counters *)

Definition clean_text (text : string) : string := text.

Definition _count_sentences (text : string) : pyval :=
  if (len text =? 0)%nat then VInt 0
  else
    let text := fold_left (fun text remover => sub_empty remover text)
                          _re_remove_fake_sentences text in
    D (VInt (Z.max 1 (Z.of_nat (len (sub_empty _re_count_sentences text))))).

Definition _count_words (text : string) : pyval :=
  if (len text =? 0)%nat then VInt 0
  else D (VInt (1 + Z.of_nat (len (sub_empty _re_count_words text)))).

Definition average_words_per_sentence (text : string) : result pyval :=
  Raise (Exception "Not implemented").

Definition _count_syllables (text : string) : result pyval :=
  let words := str_split " " text in
  s <- py_sum (map syllable_count words) ;;
  Ok (D s).

(** [filter] with a predicate that may raise. *)
Fixpoint filterM {A} (f : A -> result bool) (l : list A) : result (list A) :=
  match l with
  | [] => Ok []
  | x :: l' =>
      b <- f x ;;
      r <- filterM f l' ;;
      Ok (if b then x :: r else r)
  end.

(** Words with 3 or more syllables. *)
Definition _count_complex_words (text : string) : result pyval :=
  let words := str_split " " text in
  long <- filterM (fun w => s <- _count_syllables w ;; Ok (py_ge s (VInt 3))) words ;;
  let long_words := Z.of_nat (List.length long) in
  py_div (D (VInt long_words)) (D (VInt (Z.of_nat (List.length words)))).

Definition _count_letters (text : string) : pyval :=
  let text := sub_empty _re_letters_and_digits text in
  VInt (Z.of_nat (len text)).

(* ================================================================== *)
(** ** The formula layer *)

(** 206.835 - 1.015 * (words / sentences) - 84.6 * (syllables / words) *)
Definition flesch_kincaid_reading_ease (text : string) : result pyval :=
  let text := clean_text text in
  let words := _count_words text in
  let sentences := _count_sentences text in
  syllables <- _count_syllables text ;;
  words_over_sentences <- py_div words sentences ;;
  syllables_over_words <- py_div syllables words ;;
  a <- py_mul (D (float_lit 1.015)) words_over_sentences ;;
  x <- py_sub (D (float_lit 206.835)) a ;;
  b <- py_mul (D (float_lit 84.6)) syllables_over_words ;;
  py_sub x b.

(** 0.39 * (words / sentences) + 11.8 * (syllables / words) - 15.59 *)
Definition flesch_kincaid_grade_level (text : string) : result pyval :=
  let text := clean_text text in
  let words := _count_words text in
  let sentences := _count_sentences text in
  syllables <- _count_syllables text ;;
  words_over_sentences <- py_div words sentences ;;
  syllables_over_words <- py_div syllables words ;;
  a <- py_mul (D (float_lit 0.39)) words_over_sentences ;;
  b <- py_mul (D (float_lit 11.8)) syllables_over_words ;;
  x <- py_add a b ;;
  py_sub x (D (float_lit 15.59)).

(** 0.4 * ((words / sentences) + 100 * (complex_words / words)) *)
Definition gunning_fog_score (text : string) : result pyval :=
  let text := clean_text text in
  let words := _count_words text in
  let sentences := _count_sentences text in
  complex_words <- _count_complex_words text ;;
  words_over_sentences <- py_div words sentences ;;
  complex_over_normal <- py_div complex_words words ;;
  a <- py_mul (VInt 100) complex_over_normal ;;
  x <- py_add words_over_sentences a ;;
  py_mul (D (float_lit 0.4)) x.

(** (0.0588 * L) - (0.296 * S) - 15.8 *)
Definition coleman_liau_index (text : string) : result pyval :=
  let text := clean_text text in
  let words := _count_words text in
  let sentences := _count_sentences text in
  let letters := _count_letters text in
  lw <- py_div letters words ;;
  L <- py_mul lw (D (VInt 100)) ;;
  sw <- py_div sentences words ;;
  S <- py_mul sw (D (VInt 100)) ;;
  a <- py_mul (D (float_lit 0.0588)) L ;;
  b <- py_mul (D (float_lit 0.296)) S ;;
  x <- py_sub a b ;;
  py_sub x (D (float_lit 15.8)).

(** 1.043 * sqrt(polysyllables * (30 / sentences) + 3.1291) *)
Definition smog_index (text : string) : result pyval :=
  let text := clean_text text in
  let sentences := _count_sentences text in
  polysyllables <- _count_complex_words text ;;
  a <- py_div (D (VInt 30)) sentences ;;
  b <- py_mul polysyllables a ;;
  x <- py_add b (D (float_lit 3.1291)) ;;
  r <- math_sqrt x ;;
  py_mul (D (float_lit 1.043)) (D r).

(** 4.71 * (characters / words) + 0.5 * (words / sentences) - 21.43 *)
Definition automated_readability_index (text : string) : result pyval :=
  let text := clean_text text in
  let words := _count_words text in
  let sentences := _count_sentences text in
  let letters := _count_letters text in
  lw <- py_div letters words ;;
  a <- py_mul (D (float_lit 4.71)) lw ;;
  ws <- py_div words sentences ;;
  b <- py_mul (D (float_lit 0.5)) ws ;;
  x <- py_add a b ;;
  py_sub x (D (float_lit 21.43)).

(* ================================================================== *)
(** ** What the claims speak of, in the spec's own words *)

Module Spec.

(** Number of occurrences of a character in a text. *)
Fixpoint count_char (a : ascii) (s : string) : nat :=
  match s with
  | EmptyString => 0%nat
  | String c s' => if Ascii.eqb c a then S (count_char a s') else count_char a s'
  end.

Definition capital (c : ascii) : bool := (65 <=? N_of_ascii c)%N && (N_of_ascii c <=? 90)%N.
Definition period (c : ascii) : bool := Ascii.eqb c ".".

(** Delete, from the left, every capital-period-capital-period group. *)
Fixpoint delete_initials (s : string) : string :=
  match s with
  | String a (String b (String c (String d rest)) as tl) =>
      if capital a && period b && capital c && period d
      then delete_initials rest
      else String a (delete_initials tl)
  | String a tl => String a (delete_initials tl)
  | EmptyString => EmptyString
  end.

(** Delete, from the left, every literal "Mr.". *)
Fixpoint delete_Mr (s : string) : string :=
  match s with
  | String a (String b (String c rest) as tl) =>
      if Ascii.eqb a "M" && Ascii.eqb b "r" && Ascii.eqb c "."
      then delete_Mr rest
      else String a (delete_Mr tl)
  | String a tl => String a (delete_Mr tl)
  | EmptyString => EmptyString
  end.

(** Number of '.', '!' and '?' in a text. *)
Fixpoint count_terminators (s : string) : nat :=
  match s with
  | EmptyString => 0%nat
  | String c s' =>
      if Ascii.eqb c "." || Ascii.eqb c "!" || Ascii.eqb c "?"
      then S (count_terminators s')
      else count_terminators s'
  end.

(** The estimated syllable count of one word is 3 or greater. *)
Definition is_complex (w : string) : bool :=
  Qle_bool 3 (value (syllable_count w)).

(** The complex-word count: words, split on single spaces, whose
    estimated syllable count is 3 or greater. *)
Definition complex_word_count (text : string) : Z :=
  Z.of_nat (List.length (filter is_complex (str_split " " text))).

(** A text of [n] spaces. *)
Fixpoint spaces (n : nat) : string :=
  match n with
  | O => EmptyString
  | S n' => String " " (spaces n')
  end.

End Spec.

(* ================================================================== *)
(** ** Vocabulary of the proofs *)

(** The text after its first [n] characters. *)
Fixpoint drop (n : nat) (s : string) : string :=
  match n, s with
  | S n', String _ s' => drop n' s'
  | _, _ => s
  end.

(** Number of characters of a text that are outside a class. *)
Fixpoint count_outside (c : cls) (s : string) : nat :=
  match s with
  | EmptyString => 0%nat
  | String a s' => if c a then count_outside c s' else S (count_outside c s')
  end.

(** The two removers of [_re_remove_fake_sentences]. *)
Definition re_initials : re := cat [Chr upper_AZ; lit "."; Chr upper_AZ; lit "."].
Definition re_Mr : re := lit "Mr.".

(** The value is a float. *)
Definition is_float (v : pyval) : bool :=
  match v with
  | VFloat _ => true
  | _ => false
  end.

(** Letters and digits: the complement of [_re_letters_and_digits]. *)
Definition alnum : cls := union lower_az (union upper_AZ digit_09).

(** Number of characters of a text that are in a class. *)
Fixpoint count_in (c : cls) (s : string) : nat :=
  match s with
  | EmptyString => 0%nat
  | String a s' => if c a then S (count_in c s') else count_in c s'
  end.

(** The text without its characters of a class. *)
Fixpoint remove (c : cls) (s : string) : string :=
  match s with
  | EmptyString => EmptyString
  | String a s' => if c a then remove c s' else String a (remove c s')
  end.

(** Every character of the text is in the class. *)
Fixpoint all_in (c : cls) (s : string) : bool :=
  match s with
  | EmptyString => true
  | String a s' => c a && all_in c s'
  end.

(** The counts the formulas work on, read off the text. *)
Module Counts.

(** One more than the number of spaces. *)
Definition words (text : string) : Z := 1 + Z.of_nat (Spec.count_char " " text).

(** The terminators left by the two removers, at least 1. *)
Definition sentences (text : string) : Z :=
  Z.max 1 (Z.of_nat (Spec.count_terminators (Spec.delete_Mr (Spec.delete_initials text)))).

(** The ASCII letters and digits. *)
Definition letters (text : string) : Z := Z.of_nat (count_in alnum text).

(** The words whose estimate is 3 or more. *)
Definition complex_words (text : string) : Z := Spec.complex_word_count text.

End Counts.

(** Decimal arithmetic under the default context, on exact values. *)
Module Dec.

Definition add (a b : Q) : Q := round_ctx (a + b).
Definition sub (a b : Q) : Q := round_ctx (a - b).
Definition mul (a b : Q) : Q := round_ctx (a * b).
Definition div (a b : Q) : Q := round_ctx (a / b).

(** [D(x)] for a float literal [x]. *)
Definition of_float (q : Q) : Q := binary64 q.

End Dec.

(** The text after its leading characters of a class. *)
Fixpoint skip_class (c : cls) (s : string) : string :=
  match s with
  | EmptyString => EmptyString
  | String a s' => if c a then skip_class c s' else s
  end.

(** Number of leading characters of a class. *)
Fixpoint run_length (c : cls) (s : string) : nat :=
  match s with
  | EmptyString => 0%nat
  | String a s' => if c a then S (run_length c s') else 0%nat
  end.

(** Number of maximal runs of vowels; [inside] tells that the character
    before was a vowel. *)
Fixpoint vowel_groups (inside : bool) (s : string) : Z :=
  match s with
  | EmptyString => 0
  | String a s' =>
      if vowel a then (if inside then 0 else 1) + vowel_groups true s'
      else vowel_groups false s'
  end.

(** Number of pieces that are not empty; the first one is left out when
    [inside] is set. *)
Definition pieces_count (inside : bool) (ps : list string) : Z :=
  match ps with
  | [] => 0
  | p :: ps' =>
      (if inside then 0 else if String.eqb p "" then 0 else 1) + count_word_parts ps'
  end.

(** Whatever [r] matches begins with a character of [P]; in particular
    [r] matches neither the empty text nor at the end of the text. *)
Inductive Heads (P : cls) : re -> Prop :=
| Heads_Chr (c : cls) :
    (forall a, c a = true -> P a = true) -> Heads P (Chr c)
| Heads_Seq (r1 r2 : re) :
    Heads P r1 -> Heads P (Seq r1 r2)
| Heads_Bol (r : re) :
    Heads P r -> Heads P (Seq Bol r).

(* ================================================================== *)
(** ** The model at work *)

(** The three scanning operations on the word-part pattern and on two of
    the affix patterns. *)
Example split_word_parts :
  Re.split _re_syllable_word_parts "the" = [""; "e"]
  /\ Re.split _re_syllable_word_parts "cat" = [""; "a"; ""]
  /\ Re.split _re_syllable_word_parts "beauti" = [""; "eau"; "i"]
  /\ Re.split _re_syllable_word_parts "" = [""].
Proof. repeat split; reflexivity. Qed.

Example findall_sub_affix :
  findall (cat [lit "er"; Opt (lit "s"); Eol]) "erasers" = ["ers"]
  /\ sub_empty (cat [lit "er"; Opt (lit "s"); Eol]) "erasers" = "eras"
  /\ findall (cat [Bol; lit "un"]) "unun" = ["un"]
  /\ sub_empty (cat [Bol; lit "un"]) "unun" = "un".
Proof. repeat split; reflexivity. Qed.

(** The affix loop works on the shrinking word. *)
Example strip_affixes_unfriendly : strip_affixes "unfriendly" = (2, "friend").
Proof. reflexivity. Qed.

(** The table of problem words is consulted on the cleaned word. *)
Example syllable_count_problem_words :
  syllable_count "simile" = VInt 3
  /\ syllable_count "forever" = VInt 3
  /\ syllable_count "Shoreline!" = VInt 2.
Proof. repeat split; reflexivity. Qed.

Example syllable_count_words :
  map syllable_count ["The"; "cat"; "sat."; "beautiful"; "day"; "matched"; "123"]
  = [VDec 1; VDec 1; VDec 1; VDec 4; VDec 1; VDec 1; VDec 1].
Proof. vm_compute. reflexivity. Qed.

(** Float literals and the square root are the binary64 ones. *)
Example binary64_values :
  binary64 0.1 = 3602879701896397 # 36028797018963968
  /\ fsqrt 2 = 6369051672525773 # 4503599627370496
  /\ fsqrt (binary64 (1 # 4)) = 1 # 2.
Proof. repeat split; vm_compute; reflexivity. Qed.

(** Decimal division rounds to 28 digits, half-even. *)
Example decimal_division :
  py_div (D (VInt 1)) (D (VInt 3)) = Ok (VDec 0.3333333333333333333333333333)
  /\ py_div (D (VInt 2)) (D (VInt 3)) = Ok (VDec 0.6666666666666666666666666667)
  /\ py_div (D (VInt 1)) (D (VInt 0)) = Raise DivisionByZero
  /\ py_div (VInt 0) (VInt 0) = Raise ZeroDivisionError.
Proof. repeat split; vm_compute; reflexivity. Qed.

(** The formulas raise on the empty text. *)
Example formulas_empty_text :
  gunning_fog_score "" = Raise ZeroDivisionError
  /\ flesch_kincaid_reading_ease "" = Raise ZeroDivisionError
  /\ smog_index "" = Raise DivisionByZero.
Proof. repeat split; vm_compute; reflexivity. Qed.

(* ================================================================== *)
(** ** The matcher on the patterns of the counters *)

Section Scanning.

Variable r : re.

(** Characters of a match found earlier are dropped whatever they are. *)
Lemma sub_from_skip (s : string) :
  forall (k : nat) (b : bool),
    sub_from r b s (S k) = sub_from r false (drop (S k) s) 0.
Proof.
  induction s as [|a s IH]; intros k b.
  - reflexivity.
  - cbn [sub_from drop]. destruct k as [|k].
    + now destruct s.
    + apply IH.
Qed.

End Scanning.

Lemma len_tail_sub (a : ascii) (s : string) : (len (String a s) - len s = 1)%nat.
Proof. unfold len. cbn [String.length]. lia. Qed.

Lemma match_at_Chr (c : cls) (bos : bool) (s : string) :
  match_at (Chr c) bos s =
  match s with
  | String a _ => if c a then Some 1%nat else None
  | EmptyString => None
  end.
Proof.
  unfold match_at. destruct s as [|a s]; cbn [m]; [reflexivity|].
  destruct (c a); [|reflexivity]. now rewrite len_tail_sub.
Qed.

(** Deleting the characters of a class leaves the others. *)
Lemma len_sub_Chr (c : cls) (s : string) :
  forall bos, len (sub_from (Chr c) bos s 0) = count_outside c s.
Proof.
  induction s as [|a s IH]; intro bos; [reflexivity|].
  cbn [sub_from]. rewrite match_at_Chr. cbn [count_outside].
  destruct (c a).
  - apply IH.
  - unfold len in *. cbn [String.length]. now rewrite IH.
Qed.

Lemma count_outside_not_space (s : string) :
  count_outside (neg (chr " ")) s = Spec.count_char " " s.
Proof.
  induction s as [|a s IH]; [reflexivity|].
  cbn [count_outside Spec.count_char].
  change (neg (chr " ") a) with (negb (Ascii.eqb " " a)).
  rewrite (eqb_sym " " a), IH. now destruct (Ascii.eqb a " ").
Qed.

Lemma count_outside_not_terminator (s : string) :
  count_outside (neg (one_of ".!?")) s = Spec.count_terminators s.
Proof.
  induction s as [|a s IH]; [reflexivity|].
  cbn [count_outside Spec.count_terminators].
  change (neg (one_of ".!?") a)
    with (negb (Ascii.eqb "." a || (Ascii.eqb "!" a || (Ascii.eqb "?" a || false)))).
  rewrite (eqb_sym "." a), (eqb_sym "!" a), (eqb_sym "?" a), orb_false_r, orb_assoc, IH.
  now destruct (Ascii.eqb a "." || Ascii.eqb a "!" || Ascii.eqb a "?").
Qed.

Lemma match_at_initials (bos : bool) (s : string) :
  match_at re_initials bos s =
  match s with
  | String a (String b (String c (String d _))) =>
      if Spec.capital a && Spec.period b && Spec.capital c && Spec.period d
      then Some 4%nat else None
  | _ => None
  end.
Proof.
  unfold match_at, Spec.period.
  destruct s as [|a [|b [|c [|d t]]]]; cbn [re_initials cat lit m].
  - reflexivity.
  - now destruct (upper_AZ a).
  - destruct (upper_AZ a); [|reflexivity]. now destruct (chr "." b).
  - destruct (upper_AZ a); [|reflexivity]. destruct (chr "." b); [|reflexivity].
    now destruct (upper_AZ c).
  - change (Spec.capital a) with (upper_AZ a).
    change (Spec.capital c) with (upper_AZ c).
    rewrite (eqb_sym b "."), (eqb_sym d ".").
    change (Ascii.eqb "." b) with (chr "." b).
    change (Ascii.eqb "." d) with (chr "." d).
    destruct (upper_AZ a); [|reflexivity]. destruct (chr "." b); [|reflexivity].
    destruct (upper_AZ c); [|reflexivity]. destruct (chr "." d); [|reflexivity].
    cbn [andb]. f_equal. unfold len. cbn [String.length]. lia.
Qed.

Lemma match_at_Mr (bos : bool) (s : string) :
  match_at re_Mr bos s =
  match s with
  | String a (String b (String c _)) =>
      if Ascii.eqb a "M" && Ascii.eqb b "r" && Ascii.eqb c "."
      then Some 3%nat else None
  | _ => None
  end.
Proof.
  unfold match_at.
  destruct s as [|a [|b [|c t]]]; cbn [re_Mr lit m].
  - reflexivity.
  - now destruct (chr "M" a).
  - destruct (chr "M" a); [|reflexivity]. now destruct (chr "r" b).
  - rewrite (eqb_sym a "M"), (eqb_sym b "r"), (eqb_sym c ".").
    change (Ascii.eqb "M" a) with (chr "M" a).
    change (Ascii.eqb "r" b) with (chr "r" b).
    change (Ascii.eqb "." c) with (chr "." c).
    destruct (chr "M" a); [|reflexivity]. destruct (chr "r" b); [|reflexivity].
    destruct (chr "." c); [|reflexivity].
    cbn [andb]. f_equal. unfold len. cbn [String.length]. lia.
Qed.

(** The first remover deletes the capital-period-capital-period groups. *)
Lemma sub_initials_spec (n : nat) :
  forall (s : string) (b : bool),
    (len s <= n)%nat -> sub_from re_initials b s 0 = Spec.delete_initials s.
Proof.
  induction n as [|n IH]; intros s b Hn.
  - destruct s; [reflexivity|]. unfold len in Hn. cbn [String.length] in Hn. lia.
  - destruct s as [|a s]; [reflexivity|].
    assert (Hs : (len s <= n)%nat) by (unfold len in *; cbn [String.length] in Hn; lia).
    cbn [sub_from]. rewrite match_at_initials.
    destruct s as [|x [|y [|z t]]];
      try (cbn [Spec.delete_initials]; now rewrite (IH _ false Hs)).
    cbn [Spec.delete_initials].
    destruct (Spec.capital a && Spec.period x && Spec.capital y && Spec.period z).
    + rewrite sub_from_skip. cbn [drop]. apply IH. unfold len in *. cbn [String.length] in *. lia.
    + now rewrite (IH _ false Hs).
Qed.

(** The second remover deletes the literal "Mr.". *)
Lemma sub_Mr_spec (n : nat) :
  forall (s : string) (b : bool),
    (len s <= n)%nat -> sub_from re_Mr b s 0 = Spec.delete_Mr s.
Proof.
  induction n as [|n IH]; intros s b Hn.
  - destruct s; [reflexivity|]. unfold len in Hn. cbn [String.length] in Hn. lia.
  - destruct s as [|a s]; [reflexivity|].
    assert (Hs : (len s <= n)%nat) by (unfold len in *; cbn [String.length] in Hn; lia).
    cbn [sub_from]. rewrite match_at_Mr.
    destruct s as [|x [|y t]];
      try (cbn [Spec.delete_Mr]; now rewrite (IH _ false Hs)).
    cbn [Spec.delete_Mr].
    destruct (Ascii.eqb a "M" && Ascii.eqb x "r" && Ascii.eqb y ".").
    + rewrite sub_from_skip. cbn [drop]. apply IH. unfold len in *. cbn [String.length] in *. lia.
    + now rewrite (IH _ false Hs).
Qed.

(* ================================================================== *)
(** ** Counting sentences and words *)

(** C7. [_count_sentences] returns, for a non-empty text, the maximum of 1
    and the number of '.', '!' and '?' left once the capital-period-
    capital-period groups and then the literal "Mr." have been deleted; it
    returns 0 for the empty text, and 1 for
    "Mr. Smith went to U.K. today.". *)
Theorem count_sentences_spec :
  (forall text : string,
      (0 < len text)%nat ->
      _count_sentences text =
      VDec (inject_Z (Z.max 1 (Z.of_nat
        (Spec.count_terminators (Spec.delete_Mr (Spec.delete_initials text)))))))
  /\ _count_sentences "" = VInt 0
  /\ _count_sentences "Mr. Smith went to U.K. today." = VDec 1.
Proof.
  split; [|split; reflexivity].
  intros text Hlen. unfold _count_sentences.
  destruct text as [|a t]; [unfold len in Hlen; cbn in Hlen; lia|].
  change (len (String a t) =? 0)%nat with false. cbv iota.
  change _re_remove_fake_sentences with [re_initials; re_Mr].
  cbn [fold_left]. unfold sub_empty, _re_count_sentences, D, value.
  rewrite (sub_initials_spec _ _ true (le_n _)).
  rewrite (sub_Mr_spec _ _ true (le_n _)).
  rewrite len_sub_Chr, count_outside_not_terminator.
  reflexivity.
Qed.

Lemma count_sentences_spec_witness :
  (0 < len "Dr. Who? U.S.A. yes!")%nat /\
  _count_sentences "Dr. Who? U.S.A. yes!" = VDec 4.
Proof.
  split.
  - vm_compute. lia.
  - apply (proj1 count_sentences_spec "Dr. Who? U.S.A. yes!").
    vm_compute. lia.
Defined.

(** C8. [_count_words] returns, for a non-empty text, 1 plus the number of
    space characters (every space counts, so "a  b" gives 3), and 0 for the
    empty text. *)
Theorem count_words_spec :
  (forall text : string,
      (0 < len text)%nat ->
      _count_words text = VDec (inject_Z (1 + Z.of_nat (Spec.count_char " " text))))
  /\ _count_words "a  b" = VDec 3
  /\ _count_words "" = VInt 0.
Proof.
  split; [|split; reflexivity].
  intros text Hlen. unfold _count_words.
  destruct text as [|a t]; [unfold len in Hlen; cbn in Hlen; lia|].
  change (len (String a t) =? 0)%nat with false. cbv iota.
  unfold sub_empty, _re_count_words, D, value.
  now rewrite len_sub_Chr, count_outside_not_space.
Qed.

Lemma count_words_spec_witness :
  (0 < len " to be  or not ")%nat /\ _count_words " to be  or not " = VDec 7.
Proof.
  split.
  - vm_compute. lia.
  - apply (proj1 count_words_spec " to be  or not ").
    vm_compute. lia.
Defined.

(** C9. [average_words_per_sentence] raises its "Not implemented" exception
    on every text, and so never returns a value. *)
Theorem average_words_per_sentence_raises :
  forall text : string,
    average_words_per_sentence text = Raise (Exception "Not implemented")
    /\ forall v : pyval, average_words_per_sentence text <> Ok v.
Proof.
  intro text. split; [reflexivity|]. intros v H. discriminate H.
Qed.

(* ================================================================== *)
(** ** The syllable estimator on particular words *)

(** C3, evaluated: "cced" is its own cleaned form, it has one vowel group
    and matches two of the subtractive patterns, and the final test
    [syllable_count == 0] lets the resulting -1 through. *)
Theorem syllable_count_cced :
  clean_word "cced" = "cced"
  /\ syllable_count "cced" = VDec (-1)
  /\ syllable_count "cwtched" = VDec (-1)
  /\ (value (syllable_count "cced") < 1)%Q.
Proof.
  repeat split; vm_compute; reflexivity.
Qed.

(** What the final test does guarantee: the estimate of a word that is not
    empty is never 0. *)
Lemma syllable_count_nonzero (w : string) :
  (0 < len w)%nat -> ~ (value (syllable_count w) == 0)%Q.
Proof.
  intro Hlen. unfold syllable_count.
  destruct w as [|a t]; [unfold len in Hlen; cbn in Hlen; lia|].
  change (len (String a t) =? 0)%nat with false. cbv iota.
  unfold syllables_of_clean, lookup, _syllable_problem_words.
  repeat (destruct (String.eqb _ _); [cbn; discriminate|]).
  destruct (strip_affixes _) as [n text]. unfold D, value.
  match goal with |- context [if ?c =? 0 then _ else _] => destruct (Z.eqb_spec c 0) as [E|E] end.
  - discriminate.
  - unfold Qeq, inject_Z. cbn [Qnum Qden]. lia.
Qed.

(** C4, refuted as stated: a word of three periods is not empty, its
    cleaned form is, and the estimate is 1, not 0. *)
Lemma syllable_count_all_punctuation :
  (0 < len "...")%nat
  /\ clean_word "..." = ""
  /\ syllable_count "..." = VDec 1
  /\ ~ (value (syllable_count "...") == 0)%Q.
Proof.
  repeat split; try (vm_compute; reflexivity).
  - vm_compute. lia.
  - vm_compute. discriminate.
Qed.

(** C4, amended: the estimate is 0 for the empty word; for a word that is
    not empty and whose cleaned form is empty it is 1. *)
Theorem syllable_count_empty_cases :
  forall w : string,
    (len w = 0%nat -> syllable_count w = VInt 0)
    /\ ((0 < len w)%nat -> clean_word w = "" -> syllable_count w = VDec 1).
Proof.
  intro w. unfold syllable_count. split.
  - intros ->. reflexivity.
  - intros Hlen Hclean. destruct w as [|a t]; [unfold len in Hlen; cbn in Hlen; lia|].
    change (len (String a t) =? 0)%nat with false. cbv iota.
    rewrite Hclean. reflexivity.
Qed.

Lemma syllable_count_empty_cases_witness :
  syllable_count "" = VInt 0 /\ syllable_count "?!-" = VDec 1.
Proof.
  split.
  - apply (proj1 (syllable_count_empty_cases "")). reflexivity.
  - apply (proj2 (syllable_count_empty_cases "?!-")).
    + vm_compute. lia.
    + vm_compute. reflexivity.
Defined.

(* ================================================================== *)
(** ** The formulas on particular texts *)

(** C6, evaluated: on "The cat sat." the counts are 3 words, 1 sentence and
    3 syllables, the three constants are the binary64 neighbours of
    206.835, 1.015 and 84.6, and the score is not 119.19. *)
Theorem flesch_kincaid_reading_ease_the_cat_sat :
  _count_words "The cat sat." = VDec 3
  /\ _count_sentences "The cat sat." = VDec 1
  /\ _count_syllables "The cat sat." = Ok (VDec 3)
  /\ ~ (value (D (float_lit 206.835)) == 206.835)%Q
  /\ flesch_kincaid_reading_ease "The cat sat." = Ok (VDec 119.1900000000000139355194051)
  /\ ~ (119.1900000000000139355194051 == 206.835 - 1.015 * (3 / 1) - 84.6 * (3 / 3))%Q.
Proof.
  repeat split; try (vm_compute; reflexivity); vm_compute; discriminate.
Qed.

(** C1, evaluated: "beautiful day" has 2 words, 1 sentence and 1 complex
    word; [_count_complex_words] returns the ratio 1/2, the formula divides
    it by the word count again, and the score is about 10.8 where the
    stated formula gives 20.8. *)
Theorem gunning_fog_score_beautiful_day :
  _count_words "beautiful day" = VDec 2
  /\ _count_sentences "beautiful day" = VDec 1
  /\ Spec.complex_word_count "beautiful day" = 1
  /\ _count_complex_words "beautiful day" = Ok (VDec (1 # 2))
  /\ gunning_fog_score "beautiful day" = Ok (VDec 10.8000000000000005995204333)
  /\ (0.4 * ((2 / 1) + 100 * (1 / 2)) == 20.8)%Q.
Proof.
  repeat split; vm_compute; reflexivity.
Qed.

(** C2, evaluated: on "beautiful day" the value under the root is
    (1/2) * 30 + 3.1291 and not 1 * 30 + 3.1291; the score is below 5, while
    the square of the stated value, 1.043^2 * 33.1291, is above 6^2. *)
Theorem smog_index_beautiful_day :
  Spec.complex_word_count "beautiful day" = 1
  /\ _count_complex_words "beautiful day" = Ok (VDec (1 # 2))
  /\ (exists q : Q,
        smog_index "beautiful day" = Ok (VDec q)
        /\ (q == 4.440914692481718326940140645)%Q
        /\ (q < 5)%Q)
  /\ (6 * 6 < (1.043 * 1.043) * (1 * (30 / 1) + 3.1291))%Q.
Proof.
  split; [|split; [|split]]; try (vm_compute; reflexivity).
  eexists. split; [vm_compute; reflexivity|].
  split; vm_compute; reflexivity.
Qed.

(* ================================================================== *)
(** ** Rounding to the Decimal context *)

Section Rounding.

Local Open Scope Z_scope.

Lemma ndigits_fuel_spec (b : Z) (Hb : 2 <= b) (fuel : nat) :
  forall z : Z,
    0 < z -> z < 2 ^ Z.of_nat fuel ->
    1 <= ndigits_fuel fuel b z
    /\ b ^ (ndigits_fuel fuel b z - 1) <= z < b ^ ndigits_fuel fuel b z.
Proof.
  induction fuel as [|f IH]; intros z Hz Hlt.
  - cbn in Hlt. lia.
  - cbn [ndigits_fuel]. destruct (Z.ltb_spec z b) as [Hzb|Hzb].
    + cbn. lia.
    + assert (Hq : 0 < z / b) by (apply Z.div_str_pos; lia).
      assert (Hq2 : z / b < 2 ^ Z.of_nat f).
      { rewrite Nat2Z.inj_succ, Z.pow_succ_r in Hlt by lia.
        apply Z.div_lt_upper_bound; [lia|]. nia. }
      destruct (IH (z / b) Hq Hq2) as [Hk [Hlo Hhi]].
      set (k := ndigits_fuel f b (z / b)) in *.
      replace (1 + k - 1) with (Z.succ (k - 1)) by lia.
      replace (1 + k) with (Z.succ k) by lia.
      rewrite !Z.pow_succ_r by lia.
      pose proof (Z.mul_div_le z b ltac:(lia)).
      pose proof (Z.mul_succ_div_gt z b ltac:(lia)).
      split; [lia|]. split; nia.
Qed.

Lemma ndigits_spec (b z : Z) :
  2 <= b -> 0 < z ->
  1 <= ndigits b z /\ b ^ (ndigits b z - 1) <= z < b ^ ndigits b z.
Proof.
  intros Hb Hz. apply ndigits_fuel_spec; [assumption..|].
  rewrite Nat2Z.inj_succ, Z2Nat.id by apply Z.log2_nonneg.
  apply Z.log2_spec. assumption.
Qed.

Lemma ndigits_mono (b n d : Z) :
  2 <= b -> 0 < n <= d -> ndigits b n <= ndigits b d.
Proof.
  intros Hb [Hn Hnd].
  destruct (ndigits_spec b n Hb Hn) as [Hkn [Hlo _]].
  destruct (ndigits_spec b d Hb ltac:(lia)) as [Hkd [_ Hhi]].
  assert (H : b ^ (ndigits b n - 1) < b ^ ndigits b d) by lia.
  apply Z.pow_lt_mono_r_iff in H; lia.
Qed.

Lemma Qround_half_even_floor (x : Q) :
  Qround_half_even x = Qfloor x
  \/ (Qround_half_even x = Qfloor x + 1 /\ (inject_Z (Qfloor x) < x)%Q).
Proof.
  unfold Qround_half_even.
  destruct (Qcompare (x - inject_Z (Qfloor x)) (1 # 2)) eqn:Hc.
  - destruct (Z.even (Qfloor x)); [now left|right]. split; [reflexivity|].
    apply Qeq_alt in Hc.
    apply Qlt_minus_iff. rewrite Hc. reflexivity.
  - now left.
  - right. split; [reflexivity|]. apply Qgt_alt in Hc.
    apply Qlt_minus_iff. eapply Qlt_trans; [|exact Hc]. reflexivity.
Qed.

Lemma Qround_half_even_lower (x : Q) (lo : Z) :
  (inject_Z lo <= x)%Q -> lo <= Qround_half_even x.
Proof.
  intro H. apply Qfloor_resp_le in H. rewrite Qfloor_Z in H.
  destruct (Qround_half_even_floor x) as [-> | [-> _]]; lia.
Qed.

Lemma Qround_half_even_upper (x : Q) (hi : Z) :
  (x <= inject_Z hi)%Q -> Qround_half_even x <= hi.
Proof.
  intro H.
  destruct (Qround_half_even_floor x) as [-> | [-> Hlt]].
  - apply Qfloor_resp_le in H. now rewrite Qfloor_Z in H.
  - assert (Hf : (inject_Z (Qfloor x) < inject_Z hi)%Q) by (eapply Qlt_le_trans; eassumption).
    rewrite <- Zlt_Qlt in Hf. lia.
Qed.

Lemma Qround_half_even_comp (x y : Q) :
  (x == y)%Q -> Qround_half_even x = Qround_half_even y.
Proof.
  intro H. unfold Qround_half_even.
  rewrite (Qfloor_comp x y H).
  assert (Hc : (x - inject_Z (Qfloor y) ?= 1 # 2)%Q = (y - inject_Z (Qfloor y) ?= 1 # 2)%Q).
  { apply Qcompare_comp; [|reflexivity]. now rewrite H. }
  now rewrite Hc.
Qed.

Lemma Qpow_neg (b k : Z) :
  0 < b -> 0 <= k -> (Qpow b (- k) == / inject_Z (b ^ k))%Q.
Proof.
  intros Hb Hk. unfold Qpow. rewrite Qpower_opp.
  now rewrite Zpower_Qpower.
Qed.

(** Rounding at a non-positive exponent keeps a value of the unit interval
    inside it. *)
Lemma round_at_unit (q : Q) (e : Z) :
  (0 <= q <= 1)%Q -> e <= 0 ->
  (0 <= inject_Z (Qround_half_even (q / Qpow 10 e)) * Qpow 10 e <= 1)%Q.
Proof.
  intros [H0 H1] He.
  set (N := 10 ^ (- e)).
  assert (HN : 0 < N) by (apply Z.pow_pos_nonneg; lia).
  assert (HNq : (0 < inject_Z N)%Q) by (rewrite Zlt_Qlt in HN; exact HN).
  assert (Hp : (Qpow 10 e == / inject_Z N)%Q).
  { unfold N. rewrite <- Qpow_neg by lia. now rewrite Z.opp_involutive. }
  assert (Hx : (q / Qpow 10 e == q * inject_Z N)%Q).
  { rewrite Hp. unfold Qdiv. now rewrite Qinv_involutive. }
  rewrite (Qround_half_even_comp _ _ Hx), Hp.
  assert (Hc0 : 0 <= Qround_half_even (q * inject_Z N)).
  { apply Qround_half_even_lower. apply Qmult_le_0_compat; [assumption|]. now apply Qlt_le_weak. }
  assert (Hc1 : Qround_half_even (q * inject_Z N) <= N).
  { apply Qround_half_even_upper.
    rewrite <- (Qmult_1_l (inject_Z N)) at 2.
    apply Qmult_le_compat_r; [assumption|]. now apply Qlt_le_weak. }
  set (c := Qround_half_even (q * inject_Z N)) in *.
  split.
  - apply Qmult_le_0_compat.
    + rewrite Zle_Qle in Hc0. exact Hc0.
    + apply Qlt_le_weak, Qinv_lt_0_compat, HNq.
  - apply Qle_shift_div_r; [exact HNq|]. rewrite Qmult_1_l.
    rewrite Zle_Qle in Hc1. exact Hc1.
Qed.

Lemma sig_exponent_unit (q : Q) :
  (0 < Qnum q)%Z -> (q <= 1)%Q -> sig_exponent 10 28 q <= 0.
Proof.
  intros Hpos Hle. unfold sig_exponent.
  assert (Hnd : Z.abs (Qnum q) <= Zpos (Qden q)).
  { unfold Qle in Hle. cbn in Hle. lia. }
  pose proof (ndigits_mono 10 (Z.abs (Qnum q)) (Zpos (Qden q)) ltac:(lia) ltac:(lia)).
  destruct (Qle_bool _ _); lia.
Qed.

Lemma round_ctx_unit (q : Q) :
  (0 <= q <= 1)%Q -> (0 <= round_ctx q <= 1)%Q.
Proof.
  intros [H0 H1]. unfold round_ctx, round_sig.
  destruct (Qnum q) as [|p|p] eqn:Hn.
  - split; [apply Qle_refl | discriminate].
  - rewrite Qred_correct.
    change (Z.sgn (Z.pos p)) with 1. rewrite Z.mul_1_l.
    assert (He : sig_exponent 10 28 q <= 0) by (apply sig_exponent_unit; [lia|exact H1]).
    set (e := sig_exponent 10 28 q) in *.
    assert (Hq : (Qabs q / Qpow 10 e == q / Qpow 10 e)%Q).
    { now rewrite (Qabs_pos q H0). }
    rewrite (Qround_half_even_comp _ _ Hq).
    apply round_at_unit; [now split | exact He].
  - exfalso. unfold Qle in H0. cbn in H0. lia.
Qed.

End Rounding.

(* ================================================================== *)
(** ** The complex-word ratio *)

Lemma str_split_cons (sep : ascii) (s : string) :
  exists w ws, str_split sep s = w :: ws.
Proof.
  destruct s as [|c s]; cbn [str_split]; [now eauto|].
  destruct (Ascii.eqb c sep); [now eauto|].
  destruct (str_split sep s); eauto.
Qed.

Lemma syllable_count_not_float (w : string) : is_float (syllable_count w) = false.
Proof.
  unfold syllable_count. destruct (len w =? 0)%nat; [reflexivity|].
  unfold syllables_of_clean.
  destruct (lookup _ _); [reflexivity|].
  now destruct (strip_affixes _).
Qed.

Lemma py_add_not_float (a b : pyval) :
  is_float a = false -> is_float b = false ->
  exists v, py_add a b = Ok v /\ is_float v = false.
Proof.
  destruct a, b; cbn; intros Ha Hb; try discriminate; eauto.
Qed.

Lemma py_sum_not_float (xs : list pyval) :
  Forall (fun v => is_float v = false) xs ->
  exists v, py_sum xs = Ok v /\ is_float v = false.
Proof.
  unfold py_sum. generalize (VInt 0) (eq_refl : is_float (VInt 0) = false).
  induction xs as [|x xs IH]; intros acc Hacc Hxs.
  - cbn. eauto.
  - inversion Hxs as [|? ? Hx Hxs']; subst.
    destruct (py_add_not_float acc x Hacc Hx) as [v [Hv Hf]].
    cbn [fold_left bind]. rewrite Hv. now apply IH.
Qed.

(** [_count_syllables] never raises and returns a Decimal. *)
Lemma count_syllables_ok (text : string) :
  exists q, _count_syllables text = Ok (VDec q).
Proof.
  unfold _count_syllables.
  assert (H : Forall (fun v => is_float v = false)
                     (map syllable_count (str_split " " text))).
  { apply Forall_forall. intros v Hin. apply in_map_iff in Hin.
    destruct Hin as [w [<- _]]. apply syllable_count_not_float. }
  destruct (py_sum_not_float _ H) as [v [Hv _]].
  rewrite Hv. cbn [bind]. unfold D. eexists. reflexivity.
Qed.

Lemma filterM_ok {A} (f : A -> result bool) (l : list A) :
  (forall x, exists b, f x = Ok b) ->
  exists r, filterM f l = Ok r /\ (List.length r <= List.length l)%nat.
Proof.
  intro Hf. induction l as [|x l [r [Hr Hlen]]].
  - exists []. now split.
  - destruct (Hf x) as [b Hb]. cbn [filterM bind]. rewrite Hb, Hr. cbn [bind].
    eexists. split; [reflexivity|]. destruct b; cbn [List.length]; lia.
Qed.

(** [_count_complex_words] never raises: its result is the quotient of two
    counts, the second of them at least 1, rounded to the context. *)
Lemma count_complex_words_quotient (text : string) :
  exists long_words n : nat,
    (long_words <= n)%nat /\ (1 <= n)%nat
    /\ n = List.length (str_split " " text)
    /\ _count_complex_words text =
       Ok (VDec (round_ctx (inject_Z (Z.of_nat long_words) / inject_Z (Z.of_nat n)))).
Proof.
  unfold _count_complex_words.
  destruct (filterM_ok
              (fun w => s <- _count_syllables w ;; Ok (py_ge s (VInt 3)))
              (str_split " " text)) as [r [Hr Hlen]].
  { intro w. destruct (count_syllables_ok w) as [q ->]. cbn [bind]. eauto. }
  rewrite Hr. cbn [bind].
  destruct (str_split_cons " " text) as [w [ws Hs]].
  exists (List.length r), (List.length (str_split " " text)).
  rewrite Hs in *. cbn [List.length] in *.
  split; [lia|]. split; [lia|]. split; [reflexivity|].
  unfold py_div, D, value, is_zero. cbn [Qnum inject_Z].
  destruct (Z.eqb_spec (Z.of_nat (S (List.length ws))) 0) as [H0|_]; [lia|].
  reflexivity.
Qed.

(** C10. Splitting on single spaces always gives at least one word, so
    [_count_complex_words] divides by a count that is not zero: it returns
    on every text, and what it returns lies between 0 and 1. *)
Theorem count_complex_words_unit_interval :
  forall text : string,
    (1 <= List.length (str_split " " text))%nat
    /\ exists q : Q,
         _count_complex_words text = Ok (VDec q) /\ (0 <= q <= 1)%Q.
Proof.
  intro text.
  destruct (count_complex_words_quotient text) as [l [n [Hl [Hn [Hlen Hr]]]]].
  split; [now rewrite <- Hlen|].
  eexists. split; [exact Hr|].
  apply round_ctx_unit.
  assert (Hnq : (inject_Z 0 < inject_Z (Z.of_nat n))%Q) by (rewrite <- Zlt_Qlt; lia).
  split.
  - apply Qle_shift_div_l; [exact Hnq|]. rewrite Qmult_0_l.
    change 0%Q with (inject_Z 0). rewrite <- Zle_Qle. lia.
  - apply Qle_shift_div_r; [exact Hnq|]. rewrite Qmult_1_l, <- Zle_Qle. lia.
Qed.

(** C5, refuted: no text splits into an empty list of words, and on no text
    does [_count_complex_words] raise. *)
Lemma count_complex_words_never_faults :
  ~ exists text : string,
      str_split " " text = []
      \/ exists e : exn, _count_complex_words text = Raise e.
Proof.
  intros [text [H | [e H]]].
  - destruct (str_split_cons " " text) as [w [ws Hs]]. congruence.
  - destruct (count_complex_words_quotient text) as [l [n [_ [_ [_ Hr]]]]]. congruence.
Qed.

Lemma str_split_spaces (n : nat) :
  str_split " " (Spec.spaces n) = repeat EmptyString (S n).
Proof.
  induction n as [|n IH]; [reflexivity|].
  cbn [Spec.spaces str_split]. rewrite Ascii.eqb_refl, IH. reflexivity.
Qed.

Lemma filterM_repeat_false {A} (f : A -> result bool) (x : A) (k : nat) :
  f x = Ok false -> filterM f (repeat x k) = Ok [].
Proof.
  intro Hx. induction k as [|k IH]; [reflexivity|].
  cbn [repeat filterM bind]. now rewrite Hx, IH.
Qed.

(** C5, amended: a text of [n] spaces splits into [n + 1] words, all of
    them empty, and [_count_complex_words] returns 0 on it. *)
Theorem count_complex_words_spaces :
  forall n : nat,
    List.length (str_split " " (Spec.spaces n)) = S n
    /\ Forall (fun w => w = EmptyString) (str_split " " (Spec.spaces n))
    /\ _count_complex_words (Spec.spaces n) = Ok (VDec 0).
Proof.
  intro n. rewrite str_split_spaces. split; [|split].
  - apply repeat_length.
  - apply Forall_forall. intros w Hin. now apply repeat_spec in Hin.
  - unfold _count_complex_words. rewrite str_split_spaces.
    rewrite filterM_repeat_false by reflexivity.
    cbn [bind List.length]. rewrite repeat_length.
    unfold py_div, D, value, is_zero. cbn [Qnum inject_Z].
    destruct (Z.eqb_spec (Z.of_nat (S n)) 0) as [H0|_]; [lia|].
    cbn [Z.of_nat Z.eqb]. reflexivity.
Qed.

(* ================================================================== *)
(** ** Further properties of the counters *)

(** Substituting the empty string for a one-character class removes the
    characters of the class, one by one. *)
Lemma sub_Chr_remove (c : cls) (s : string) :
  forall bos, sub_from (Chr c) bos s 0 = remove c s.
Proof.
  induction s as [|a s IH]; intro bos; [reflexivity|].
  cbn [sub_from remove]. rewrite match_at_Chr.
  destruct (c a); now rewrite IH.
Qed.

Lemma remove_app (c : cls) (s t : string) :
  remove c (s ++ t) = remove c s ++ remove c t.
Proof.
  induction s as [|a s IH]; [reflexivity|].
  cbn [append remove]. rewrite IH. now destruct (c a).
Qed.

Lemma len_app (s t : string) : len (s ++ t) = (len s + len t)%nat.
Proof.
  unfold len. induction s as [|a s IH]; [reflexivity|].
  cbn [append String.length]. now rewrite IH.
Qed.

Lemma len_remove_neg (c : cls) (s : string) :
  len (remove (neg c) s) = count_in c s.
Proof.
  unfold len. induction s as [|a s IH]; [reflexivity|].
  cbn [remove count_in]. unfold neg at 1.
  destruct (c a); cbn [negb String.length]; now rewrite IH.
Qed.

Lemma count_in_le_len (c : cls) (s : string) : (count_in c s <= len s)%nat.
Proof.
  unfold len. induction s as [|a s IH]; [apply le_n|].
  cbn [count_in String.length]. destruct (c a); lia.
Qed.

(** X1. [_count_letters] returns the number of characters of the text that
    are ASCII letters or digits, as an int; it is at most the length of the
    text. *)
Theorem count_letters_spec :
  forall text : string,
    _count_letters text = VInt (Z.of_nat (count_in alnum text))
    /\ (count_in alnum text <= len text)%nat.
Proof.
  intro text. split; [|apply count_in_le_len].
  unfold _count_letters, sub_empty, _re_letters_and_digits.
  rewrite sub_Chr_remove. fold alnum. now rewrite len_remove_neg.
Qed.

(** X2. The letter count of a concatenation is the sum of the letter
    counts of its parts. *)
Theorem count_letters_app :
  forall a b : string,
    exists x y : Z,
      _count_letters a = VInt x /\ _count_letters b = VInt y
      /\ _count_letters (a ++ b) = VInt (x + y).
Proof.
  intros a b. unfold _count_letters, sub_empty, _re_letters_and_digits.
  rewrite !sub_Chr_remove, remove_app, len_app.
  do 2 eexists. repeat split. now rewrite Nat2Z.inj_add.
Qed.

Lemma length_str_split (s : string) :
  List.length (str_split " " s) = S (Spec.count_char " " s).
Proof.
  induction s as [|a s IH]; [reflexivity|].
  cbn [str_split Spec.count_char].
  destruct (Ascii.eqb a " ").
  - cbn [List.length]. now rewrite IH.
  - destruct (str_split " " s) as [|w ws]; [discriminate IH|]. exact IH.
Qed.

(** X3. On a text that is not empty, [_count_words] is the number of pieces
    that [text.split(' ')] gives: the word count of the formulas and the
    divisor of [_count_complex_words] are the same number. *)
Theorem count_words_is_split_length :
  forall text : string,
    (0 < len text)%nat ->
    _count_words text = VDec (inject_Z (Z.of_nat (List.length (str_split " " text)))).
Proof.
  intros text Hlen. unfold _count_words.
  destruct text as [|a t]; [unfold len in Hlen; cbn in Hlen; lia|].
  change (len (String a t) =? 0)%nat with false. cbv iota.
  unfold sub_empty, _re_count_words, D, value.
  rewrite len_sub_Chr, count_outside_not_space, length_str_split.
  do 2 f_equal. lia.
Qed.

Lemma count_words_is_split_length_witness :
  (0 < len "one two  three")%nat
  /\ _count_words "one two  three" = VDec 4.
Proof.
  split.
  - vm_compute. lia.
  - apply (count_words_is_split_length "one two  three"). vm_compute. lia.
Defined.

Lemma count_char_app (c : ascii) (s t : string) :
  Spec.count_char c (s ++ t) = (Spec.count_char c s + Spec.count_char c t)%nat.
Proof.
  induction s as [|a s IH]; [reflexivity|].
  cbn [append Spec.count_char]. rewrite IH. now destruct (Ascii.eqb a c).
Qed.

Lemma count_words_nonempty (text : string) :
  (0 < len text)%nat ->
  _count_words text = VDec (inject_Z (1 + Z.of_nat (Spec.count_char " " text))).
Proof.
  intro Hlen. unfold _count_words.
  destruct text as [|a t]; [unfold len in Hlen; cbn in Hlen; lia|].
  change (len (String a t) =? 0)%nat with false. cbv iota.
  unfold sub_empty, _re_count_words, D, value.
  now rewrite len_sub_Chr, count_outside_not_space.
Qed.

(** X4. Joining two texts that are not empty with one space adds their word
    counts. *)
Theorem count_words_join :
  forall a b : string,
    (0 < len a)%nat -> (0 < len b)%nat ->
    exists x y : Z,
      _count_words a = VDec (inject_Z x) /\ _count_words b = VDec (inject_Z y)
      /\ _count_words (a ++ " " ++ b) = VDec (inject_Z (x + y)).
Proof.
  intros a b Ha Hb.
  assert (Hab : (0 < len (a ++ " " ++ b))%nat) by (rewrite len_app; lia).
  rewrite (count_words_nonempty a Ha), (count_words_nonempty b Hb),
    (count_words_nonempty _ Hab), count_char_app.
  do 2 eexists. repeat split.
  cbn [append Spec.count_char]. rewrite Ascii.eqb_refl. do 2 f_equal. lia.
Qed.

Lemma count_words_join_witness :
  _count_words ("The cat" ++ " " ++ "sat down.") = VDec (inject_Z (2 + 2)).
Proof.
  destruct (count_words_join "The cat" "sat down.") as [x [y [Hx [Hy H]]]].
  - vm_compute. lia.
  - vm_compute. lia.
  - rewrite H. injection Hx as Hx. injection Hy as Hy. now subst.
Defined.

Lemma count_terminators_cons_mono (a : ascii) (u v : string) :
  (Spec.count_terminators u <= Spec.count_terminators v)%nat ->
  (Spec.count_terminators (String a u) <= Spec.count_terminators (String a v))%nat.
Proof.
  intro H. cbn [Spec.count_terminators].
  destruct (Ascii.eqb a "." || Ascii.eqb a "!" || Ascii.eqb a "?"); lia.
Qed.

Lemma count_terminators_cons_le (a : ascii) (u v : string) :
  (Spec.count_terminators u <= Spec.count_terminators v)%nat ->
  (Spec.count_terminators u <= Spec.count_terminators (String a v))%nat.
Proof.
  intro H. cbn [Spec.count_terminators].
  destruct (Ascii.eqb a "." || Ascii.eqb a "!" || Ascii.eqb a "?"); lia.
Qed.

Lemma count_terminators_delete_initials (n : nat) :
  forall s : string,
    (len s <= n)%nat ->
    (Spec.count_terminators (Spec.delete_initials s) <= Spec.count_terminators s)%nat.
Proof.
  induction n as [|n IH]; intros s Hn.
  - destruct s; [apply le_n|]. unfold len in Hn. cbn [String.length] in Hn. lia.
  - destruct s as [|a s]; [apply le_n|].
    assert (Hs : (len s <= n)%nat) by (unfold len in *; cbn [String.length] in Hn; lia).
    pose proof (IH s Hs) as IHs.
    destruct s as [|x [|y [|z t]]];
      try (cbn [Spec.delete_initials]; now apply count_terminators_cons_mono).
    cbn [Spec.delete_initials].
    destruct (Spec.capital a && Spec.period x && Spec.capital y && Spec.period z).
    + do 4 apply count_terminators_cons_le.
      apply IH. unfold len in *. cbn [String.length] in *. lia.
    + now apply count_terminators_cons_mono.
Qed.

Lemma count_terminators_delete_Mr (n : nat) :
  forall s : string,
    (len s <= n)%nat ->
    (Spec.count_terminators (Spec.delete_Mr s) <= Spec.count_terminators s)%nat.
Proof.
  induction n as [|n IH]; intros s Hn.
  - destruct s; [apply le_n|]. unfold len in Hn. cbn [String.length] in Hn. lia.
  - destruct s as [|a s]; [apply le_n|].
    assert (Hs : (len s <= n)%nat) by (unfold len in *; cbn [String.length] in Hn; lia).
    pose proof (IH s Hs) as IHs.
    destruct s as [|x [|y t]];
      try (cbn [Spec.delete_Mr]; now apply count_terminators_cons_mono).
    cbn [Spec.delete_Mr].
    destruct (Ascii.eqb a "M" && Ascii.eqb x "r" && Ascii.eqb y ".").
    + do 3 apply count_terminators_cons_le.
      apply IH. unfold len in *. cbn [String.length] in *. lia.
    + now apply count_terminators_cons_mono.
Qed.

Lemma count_sentences_nonempty (text : string) :
  (0 < len text)%nat ->
  _count_sentences text =
  VDec (inject_Z (Z.max 1 (Z.of_nat
    (Spec.count_terminators (Spec.delete_Mr (Spec.delete_initials text)))))).
Proof.
  intro Hlen. unfold _count_sentences.
  destruct text as [|a t]; [unfold len in Hlen; cbn in Hlen; lia|].
  change (len (String a t) =? 0)%nat with false. cbv iota.
  change _re_remove_fake_sentences with [re_initials; re_Mr].
  cbn [fold_left]. unfold sub_empty, _re_count_sentences, D, value.
  rewrite (sub_initials_spec _ _ true (le_n _)).
  rewrite (sub_Mr_spec _ _ true (le_n _)).
  now rewrite len_sub_Chr, count_outside_not_terminator.
Qed.

(** X5. On a text that is not empty, [_count_sentences] is a Decimal whole
    number between 1 and the number of '.', '!' and '?' in the text (or 1,
    when the text has none): removing the fake sentences never adds one. *)
Theorem count_sentences_bounds :
  forall text : string,
    (0 < len text)%nat ->
    exists n : Z,
      _count_sentences text = VDec (inject_Z n)
      /\ 1 <= n <= Z.max 1 (Z.of_nat (Spec.count_terminators text)).
Proof.
  intros text Hlen. rewrite (count_sentences_nonempty text Hlen).
  eexists. split; [reflexivity|].
  pose proof (count_terminators_delete_initials _ text (le_n _)).
  pose proof (count_terminators_delete_Mr _ (Spec.delete_initials text) (le_n _)).
  lia.
Qed.

Lemma count_sentences_bounds_witness :
  exists n : Z,
    _count_sentences "Mr. Smith went to U.K. today." = VDec (inject_Z n)
    /\ 1 <= n <= 4.
Proof.
  apply (count_sentences_bounds "Mr. Smith went to U.K. today."). vm_compute. lia.
Defined.

Lemma str_split_no_sep (sep : ascii) (s : string) :
  Forall (fun w => Spec.count_char sep w = 0%nat) (str_split sep s).
Proof.
  induction s as [|a s IH].
  - repeat constructor.
  - cbn [str_split]. destruct (Ascii.eqb a sep) eqn:Ea.
    + constructor; [reflexivity|exact IH].
    + destruct (str_split sep s) as [|w ws].
      * constructor; [|constructor]. cbn. now rewrite Ea.
      * inversion IH as [|? ? Hw Hws]; subst.
        constructor; [|exact Hws]. cbn [Spec.count_char]. now rewrite Ea.
Qed.

Lemma str_split_single (sep : ascii) (w : string) :
  Spec.count_char sep w = 0%nat -> str_split sep w = [w].
Proof.
  induction w as [|a w IH]; intro H; [reflexivity|].
  cbn [Spec.count_char] in H. cbn [str_split].
  destruct (Ascii.eqb a sep); [discriminate H|]. now rewrite (IH H).
Qed.

(** X6. A word that [text.split(' ')] returns contains no space, and
    splitting it again returns the word alone; so [_count_syllables], which
    the filter of [_count_complex_words] calls on each word, adds the
    estimate of that one word to the int 0. *)
Theorem split_word_is_single :
  forall (text w : string),
    In w (str_split " " text) ->
    Spec.count_char " " w = 0%nat
    /\ str_split " " w = [w]
    /\ _count_syllables w = (s <- py_add (VInt 0) (syllable_count w) ;; Ok (D s)).
Proof.
  intros text w Hin.
  pose proof (str_split_no_sep " " text) as Hall.
  rewrite Forall_forall in Hall. specialize (Hall w Hin).
  split; [exact Hall|]. split; [now apply str_split_single|].
  unfold _count_syllables. rewrite (str_split_single _ _ Hall). reflexivity.
Qed.

Lemma split_word_is_single_witness :
  str_split " " "cat" = ["cat"] /\ _count_syllables "cat" = Ok (VDec 1).
Proof.
  destruct (split_word_is_single "The cat sat." "cat") as [_ [H1 H2]].
  - vm_compute. right. left. reflexivity.
  - split; [exact H1|]. rewrite H2. vm_compute. reflexivity.
Defined.

(* ================================================================== *)
(** ** Further properties of the syllable estimator *)

Lemma lower_char_idem (c : ascii) : lower_char (lower_char c) = lower_char c.
Proof. destruct c as [[] [] [] [] [] [] [] []]; reflexivity. Qed.

Lemma lower_idem (s : string) : lower (lower s) = lower s.
Proof.
  induction s as [|a s IH]; [reflexivity|].
  cbn [lower]. now rewrite lower_char_idem, IH.
Qed.

Lemma len_lower (s : string) : len (lower s) = len s.
Proof.
  unfold len. induction s as [|a s IH]; [reflexivity|].
  cbn [lower String.length]. now rewrite IH.
Qed.

Lemma lower_app (s t : string) : lower (s ++ t) = lower s ++ lower t.
Proof.
  induction s as [|a s IH]; [reflexivity|].
  cbn [append lower]. now rewrite IH.
Qed.

Lemma clean_word_remove (w : string) :
  clean_word w = remove (neg alnum) (lower w).
Proof.
  unfold clean_word, sub_empty, _re_letters_and_digits. now rewrite sub_Chr_remove.
Qed.

Lemma clean_word_app (s t : string) :
  clean_word (s ++ t) = clean_word s ++ clean_word t.
Proof. now rewrite !clean_word_remove, lower_app, remove_app. Qed.

Lemma append_empty_r (s : string) : s ++ "" = s.
Proof.
  induction s as [|a s IH]; [reflexivity|]. cbn [append]. now rewrite IH.
Qed.

(** The estimate of a word that is not empty is a function of its cleaned
    form. *)
Lemma syllable_count_of_clean (w : string) :
  (0 < len w)%nat -> syllable_count w = syllables_of_clean (clean_word w).
Proof.
  intro Hlen. unfold syllable_count.
  destruct w as [|a t]; [unfold len in Hlen; cbn in Hlen; lia|]. reflexivity.
Qed.

(** X7. The estimate does not depend on case: two words with the same
    lowercase form have the same estimate, and so have a word and its
    lowercase form. *)
Theorem syllable_count_case_insensitive :
  forall w1 w2 : string,
    lower w1 = lower w2 ->
    syllable_count w1 = syllable_count w2
    /\ syllable_count (lower w1) = syllable_count w1.
Proof.
  assert (H : forall a b, lower a = lower b -> syllable_count a = syllable_count b).
  { intros a b Hab. unfold syllable_count, clean_word.
    rewrite <- (len_lower a), <- (len_lower b), Hab. reflexivity. }
  intros w1 w2 Hw. split; [now apply H|]. apply H, lower_idem.
Qed.

Lemma syllable_count_case_insensitive_witness :
  syllable_count "BEAUTIFUL" = syllable_count "Beautiful".
Proof.
  apply (syllable_count_case_insensitive "BEAUTIFUL" "Beautiful"). reflexivity.
Defined.

(** X8. Characters that are neither letters nor digits do not count: a word
    that is not empty keeps its estimate when a text whose cleaned form is
    empty (punctuation, say) is put after it or before it. *)
Theorem syllable_count_ignores_punctuation :
  forall w p : string,
    (0 < len w)%nat ->
    clean_word p = "" ->
    syllable_count (w ++ p) = syllable_count w
    /\ syllable_count (p ++ w) = syllable_count w.
Proof.
  intros w p Hw Hp.
  assert (H1 : (0 < len (w ++ p))%nat) by (rewrite len_app; lia).
  assert (H2 : (0 < len (p ++ w))%nat) by (rewrite len_app; lia).
  rewrite (syllable_count_of_clean _ H1), (syllable_count_of_clean _ H2),
    (syllable_count_of_clean _ Hw), !clean_word_app, Hp, append_empty_r.
  split; reflexivity.
Qed.

Lemma syllable_count_ignores_punctuation_witness :
  syllable_count ("sat" ++ ".") = syllable_count "sat"
  /\ syllable_count ("." ++ "sat") = syllable_count "sat".
Proof.
  apply (syllable_count_ignores_punctuation "sat" ".").
  - vm_compute. lia.
  - vm_compute. reflexivity.
Defined.

(** The estimate is a whole number: an int from the table of problem words
    or for the empty word, a Decimal otherwise. *)
Lemma syllable_count_shape (w : string) :
  exists z : Z, syllable_count w = VInt z \/ syllable_count w = VDec (inject_Z z).
Proof.
  unfold syllable_count. destruct (len w =? 0)%nat; [now eauto|].
  unfold syllables_of_clean. destruct (lookup _ _); [now eauto|].
  destruct (strip_affixes _). unfold D, value. eauto.
Qed.

(** X9. The estimate of a word that is not empty is a whole number other
    than 0 (it can be negative): that much the final test
    [syllable_count == 0] guarantees. *)
Theorem syllable_count_nonzero_integer :
  forall w : string,
    (0 < len w)%nat ->
    exists z : Z, value (syllable_count w) = inject_Z z /\ z <> 0.
Proof.
  intros w Hlen. rewrite (syllable_count_of_clean w Hlen).
  unfold syllables_of_clean, lookup, _syllable_problem_words.
  repeat (destruct (String.eqb _ _); [eexists; split; [reflexivity|discriminate]|]).
  destruct (strip_affixes _) as [n text]. unfold D, value.
  eexists. split; [reflexivity|].
  match goal with |- context [if ?c =? 0 then _ else _] => destruct (Z.eqb_spec c 0) as [E|E] end.
  - discriminate.
  - exact E.
Qed.

Lemma syllable_count_nonzero_integer_witness :
  exists z : Z, value (syllable_count "rhythm") = inject_Z z /\ z <> 0.
Proof.
  apply (syllable_count_nonzero_integer "rhythm"). vm_compute. lia.
Defined.

(* ------------------------------------------------------------------ *)
(** *** Words without letters *)

Lemma heads_fail (P : cls) (r : re) :
  Heads P r ->
  forall (bos : bool) (s : string) (k : K),
    match s with
    | EmptyString => True
    | String a _ => P a = false
    end ->
    m r bos s k = None.
Proof.
  induction 1 as [c Hc | r1 r2 _ IH | r _ IH]; intros bos s k Hs.
  - cbn [m]. destruct s as [|a s]; [reflexivity|].
    destruct (c a) eqn:Ea; [|reflexivity].
    apply Hc in Ea. congruence.
  - cbn [m]. now apply IH.
  - cbn [m]. destruct bos; [now apply IH | reflexivity].
Qed.

Lemma heads_match_at (P : cls) (r : re) (bos : bool) (s : string) :
  Heads P r ->
  match s with
  | EmptyString => True
  | String a _ => P a = false
  end ->
  match_at r bos s = None.
Proof.
  intros Hr Hs. unfold match_at. now rewrite (heads_fail P r Hr).
Qed.

(** On a text without characters of [P], a pattern that begins with one
    finds nothing and removes nothing. *)
Lemma heads_scan (P : cls) (r : re) (s : string) :
  Heads P r ->
  all_in (neg P) s = true ->
  forall bos,
    findall_from r bos s 0 = [] /\ sub_from r bos s 0 = s
    /\ search_from r bos s = false.
Proof.
  intros Hr. induction s as [|a s IH]; intros Hs bos.
  - cbn [findall_from sub_from search_from].
    rewrite (heads_match_at P r bos "" Hr I). repeat split.
  - cbn [all_in] in Hs. apply andb_true_iff in Hs. destruct Hs as [Ha Hs].
    unfold neg in Ha. apply negb_true_iff in Ha.
    destruct (IH Hs false) as [H1 [H2 H3]].
    cbn [findall_from sub_from search_from].
    rewrite (heads_match_at P r bos (String a s) Hr Ha), H1, H2, H3.
    repeat split.
Qed.

Lemma chr_lower_az (x : ascii) :
  lower_az x = true -> forall a, chr x a = true -> lower_az a = true.
Proof.
  intros Hx a Ha. unfold chr in Ha. apply Ascii.eqb_eq in Ha. now subst.
Qed.

Lemma prefix_suffix_heads : Forall (Heads lower_az) _syllable_prefix_suffix.
Proof.
  unfold _syllable_prefix_suffix.
  repeat constructor; now apply chr_lower_az.
Qed.

Lemma strip_affixes_no_letters (t : string) :
  all_in (neg lower_az) t = true -> strip_affixes t = (0, t).
Proof.
  intro Ht. unfold strip_affixes.
  generalize prefix_suffix_heads. generalize 0 as n.
  induction _syllable_prefix_suffix as [|pf pfs IH]; intros n Hall; [reflexivity|].
  inversion Hall as [|? ? Hpf Hpfs]; subst.
  cbn [fold_left]. unfold findall, sub_empty.
  destruct (heads_scan lower_az pf t Hpf Ht true) as [-> [-> _]].
  cbn [List.length Z.of_nat]. rewrite Z.add_0_r. now apply IH.
Qed.

Lemma remove_all (c : cls) (s : string) :
  all_in c s = true -> remove c s = "".
Proof.
  induction s as [|a s IH]; intro H; [reflexivity|].
  cbn [all_in] in H. apply andb_true_iff in H. destruct H as [Ha Hs].
  cbn [remove]. rewrite Ha. now apply IH.
Qed.

Lemma lookup_no_letters (t : string) :
  all_in (neg lower_az) t = true -> lookup t _syllable_problem_words = None.
Proof.
  intro Ht. destruct t as [|a t]; [reflexivity|].
  cbn [all_in] in Ht. apply andb_true_iff in Ht. destruct Ht as [Ha _].
  unfold neg in Ha. apply negb_true_iff in Ha.
  assert (H : forall x, lower_az x = true -> Ascii.eqb a x = false).
  { intros x Hx. destruct (Ascii.eqb_spec a x) as [->|]; congruence. }
  unfold lookup, _syllable_problem_words. cbn [String.eqb].
  now rewrite !H by reflexivity.
Qed.

Lemma digit_not_lower (s : string) :
  all_in digit_09 s = true -> all_in (neg lower_az) s = true.
Proof.
  induction s as [|a s IH]; intro H; [reflexivity|].
  cbn [all_in] in *. apply andb_true_iff in H. destruct H as [Ha Hs].
  rewrite (IH Hs), andb_true_r.
  destruct a as [[] [] [] [] [] [] [] []]; try reflexivity; discriminate Ha.
Qed.

(** X10. A word that is not empty and whose cleaned form holds digits only
    (or nothing) has the estimate 1: no affix is stripped, no vowel group
    is found, no correction applies, and the final test turns 0 into 1. *)
Theorem syllable_count_digits :
  forall w : string,
    (0 < len w)%nat ->
    all_in digit_09 (clean_word w) = true ->
    syllable_count w = VDec 1.
Proof.
  intros w Hlen Hd. apply digit_not_lower in Hd.
  rewrite (syllable_count_of_clean w Hlen).
  unfold syllables_of_clean.
  assert (E : sub_empty _re_syllable_non_word_chars (clean_word w) = "").
  { unfold sub_empty, _re_syllable_non_word_chars.
    now rewrite sub_Chr_remove, (remove_all _ _ Hd). }
  rewrite (lookup_no_letters _ Hd), (strip_affixes_no_letters _ Hd).
  cbv beta iota zeta. rewrite E.
  reflexivity.
Qed.

Lemma syllable_count_digits_witness :
  syllable_count "3.14" = VDec 1 /\ syllable_count "(2024)" = VDec 1.
Proof.
  split.
  - apply (syllable_count_digits "3.14"); [vm_compute; lia | vm_compute; reflexivity].
  - apply (syllable_count_digits "(2024)"); [vm_compute; lia | vm_compute; reflexivity].
Defined.

(* ================================================================== *)
(** ** Rounding whole numbers and keeping the sign *)

Section RoundingMore.

Local Open Scope Z_scope.

Lemma Qround_half_even_Z (z : Z) : Qround_half_even (inject_Z z) = z.
Proof.
  pose proof (Qround_half_even_lower (inject_Z z) z (Qle_refl _)).
  pose proof (Qround_half_even_upper (inject_Z z) z (Qle_refl _)).
  lia.
Qed.

Lemma Qpow_pos (b e : Z) : 0 < b -> (0 < Qpow b e)%Q.
Proof.
  intro Hb. unfold Qpow. apply Qpower_0_lt.
  change 0%Q with (inject_Z 0). now rewrite <- Zlt_Qlt.
Qed.

Lemma Qpow_nonneg_exp (b e : Z) : 0 <= e -> (Qpow b e == inject_Z (b ^ e))%Q.
Proof. intro He. unfold Qpow. now rewrite Zpower_Qpower. Qed.

Lemma ndigits_10_1 : ndigits 10 1 = 1.
Proof. reflexivity. Qed.

(** The exponent chosen for a positive integer is at most its number of
    digits less the precision. *)
Lemma sig_exponent_Z (c : Z) :
  0 < c -> sig_exponent 10 28 (inject_Z c) <= ndigits 10 c - 28.
Proof.
  intro Hc. unfold sig_exponent. cbn [Qnum Qden inject_Z].
  rewrite Z.abs_eq by lia. rewrite ndigits_10_1.
  destruct (Qle_bool _ _); lia.
Qed.

(** Rounding a positive integer to the context: exact when the exponent is
    not positive, and never below 10 otherwise. *)
Lemma round_ctx_pos_Z (c : Z) :
  0 < c ->
  (round_ctx (inject_Z c) == inject_Z c)%Q \/ (10 <= round_ctx (inject_Z c))%Q.
Proof.
  intro Hc. unfold round_ctx, round_sig. cbn [Qnum inject_Z].
  destruct c as [|p|p]; try lia.
  change (Z.sgn (Z.pos p)) with 1. rewrite Z.mul_1_l.
  change (Qabs (inject_Z (Z.pos p))) with (inject_Z (Z.pos p)).
  pose proof (sig_exponent_Z (Z.pos p) Hc) as He.
  set (e := sig_exponent 10 28 (inject_Z (Z.pos p))) in *.
  destruct (Z.le_gt_cases e 0) as [Hle|Hgt].
  - left. rewrite Qred_correct.
    set (N := 10 ^ (- e)).
    assert (HN : 0 < N) by (apply Z.pow_pos_nonneg; lia).
    assert (HNq : ~ (inject_Z N == 0)%Q).
    { intro H. unfold Qeq in H. cbn in H. lia. }
    assert (Hp : (Qpow 10 e == / inject_Z N)%Q).
    { unfold N. rewrite <- Qpow_neg by lia. now rewrite Z.opp_involutive. }
    assert (Hx : (inject_Z (Z.pos p) / Qpow 10 e == inject_Z (Z.pos p * N))%Q).
    { rewrite Hp, inject_Z_mult. unfold Qdiv. now rewrite Qinv_involutive. }
    rewrite (Qround_half_even_comp _ _ Hx), Qround_half_even_Z, Hp, inject_Z_mult.
    field. exact HNq.
  - right. rewrite Qred_correct.
    set (M := 10 ^ e).
    assert (HM : 10 <= M).
    { unfold M. change 10 with (10 ^ 1) at 1. apply Z.pow_le_mono_r; lia. }
    assert (Hp : (Qpow 10 e == inject_Z M)%Q) by (apply Qpow_nonneg_exp; lia).
    destruct (ndigits_spec 10 (Z.pos p) ltac:(lia) Hc) as [Hk [Hlo _]].
    assert (HMc : M <= Z.pos p).
    { eapply Z.le_trans; [|exact Hlo]. apply Z.pow_le_mono_r; lia. }
    assert (Hr : 1 <= Qround_half_even (inject_Z (Z.pos p) / Qpow 10 e)).
    { apply Qround_half_even_lower. rewrite Hp.
      apply Qle_shift_div_l.
      - change 0%Q with (inject_Z 0). rewrite <- Zlt_Qlt. lia.
      - rewrite Qmult_1_l, <- Zle_Qle. exact HMc. }
    set (r := Qround_half_even (inject_Z (Z.pos p) / Qpow 10 e)) in *.
    rewrite Hp, <- inject_Z_mult. change 10%Q with (inject_Z 10).
    rewrite <- Zle_Qle. nia.
Qed.

Lemma round_coeff_nonneg (b : Z) (q : Q) (e : Z) :
  0 < b -> 0 <= Qround_half_even (Qabs q / Qpow b e).
Proof.
  intro Hb. apply Qround_half_even_lower.
  apply Qle_shift_div_l; [now apply Qpow_pos|].
  rewrite Qmult_0_l. apply Qabs_nonneg.
Qed.

(** Rounding keeps the sign. *)
Lemma round_sig_nonneg (b p : Z) (q : Q) :
  0 < b -> (0 <= q)%Q -> (0 <= round_sig b p q)%Q.
Proof.
  intros Hb Hq. unfold round_sig.
  destruct (Qnum q) as [|n|n] eqn:Hn.
  - apply Qle_refl.
  - rewrite Qred_correct. change (Z.sgn (Z.pos n)) with 1. rewrite Z.mul_1_l.
    apply Qmult_le_0_compat.
    + change 0%Q with (inject_Z 0). rewrite <- Zle_Qle. now apply round_coeff_nonneg.
    + apply Qlt_le_weak. now apply Qpow_pos.
  - exfalso. unfold Qle in Hq. cbn in Hq. lia.
Qed.

Lemma round_sig_nonpos (b p : Z) (q : Q) :
  0 < b -> (q <= 0)%Q -> (round_sig b p q <= 0)%Q.
Proof.
  intros Hb Hq. unfold round_sig.
  destruct (Qnum q) as [|n|n] eqn:Hn.
  - apply Qle_refl.
  - exfalso. unfold Qle in Hq. cbn in Hq. lia.
  - rewrite Qred_correct. change (Z.sgn (Z.neg n)) with (-1).
    pose proof (round_coeff_nonneg b q (sig_exponent b p q) Hb) as Hc.
    set (c := Qround_half_even _) in *.
    pose proof (Qpow_pos b (sig_exponent b p q) Hb) as Hp.
    set (P := Qpow b _) in *.
    setoid_replace (inject_Z (-1 * c) * P)%Q with (- (inject_Z c * P))%Q.
    + apply (Qopp_le_compat 0). apply Qmult_le_0_compat.
      * change 0%Q with (inject_Z 0). now rewrite <- Zle_Qle.
      * now apply Qlt_le_weak.
    + rewrite inject_Z_mult. change (inject_Z (-1)) with (-1)%Q. ring.
Qed.

(** Rounding to the context does not move a whole number across 3. *)
Lemma round_ctx_threshold (c : Z) :
  Qle_bool 3 (round_ctx (inject_Z c)) = Qle_bool 3 (inject_Z c).
Proof.
  destruct (Z.le_gt_cases 3 c) as [H3|H3].
  - assert (Hr : (3 <= round_ctx (inject_Z c))%Q).
    { destruct (round_ctx_pos_Z c ltac:(lia)) as [-> | H10].
      - change 3%Q with (inject_Z 3). now rewrite <- Zle_Qle.
      - eapply Qle_trans; [|exact H10]. discriminate. }
    assert (Hc : (3 <= inject_Z c)%Q).
    { change 3%Q with (inject_Z 3). now rewrite <- Zle_Qle. }
    apply Qle_bool_iff in Hr, Hc. now rewrite Hr, Hc.
  - destruct (Z.le_gt_cases c 0) as [H0|H0].
    + assert (Hr : (round_ctx (inject_Z c) <= 0)%Q).
      { apply round_sig_nonpos; [lia|].
        change 0%Q with (inject_Z 0). now rewrite <- Zle_Qle. }
      destruct (Qle_bool 3 (round_ctx (inject_Z c))) eqn:E1.
      * apply Qle_bool_iff in E1. exfalso.
        assert (H : (3 <= 0)%Q) by (eapply Qle_trans; eassumption).
        unfold Qle in H. cbn in H. lia.
      * destruct (Qle_bool 3 (inject_Z c)) eqn:E2; [|reflexivity].
        apply Qle_bool_iff in E2. change 3%Q with (inject_Z 3) in E2.
        rewrite <- Zle_Qle in E2. lia.
    + assert (Hc : c = 1 \/ c = 2) by lia.
      destruct Hc as [-> | ->]; vm_compute; reflexivity.
Qed.

Lemma Qpow_succ (b e : Z) : 0 < b -> (Qpow b (e + 1) == Qpow b e * inject_Z b)%Q.
Proof.
  intro Hb. unfold Qpow. rewrite Qpower_plus.
  - reflexivity.
  - intro H. unfold Qeq in H. cbn in H. lia.
Qed.

Lemma Qpow_quotient (b i j : Z) :
  0 < b -> 0 <= i -> 0 <= j ->
  (Qpow b (i - j) == inject_Z (b ^ i) / inject_Z (b ^ j))%Q.
Proof.
  intros Hb Hi Hj. unfold Qpow.
  assert (Hb0 : ~ (inject_Z b == 0)%Q) by (intro H; unfold Qeq in H; cbn in H; lia).
  unfold Z.sub. rewrite Qpower_plus by exact Hb0.
  rewrite Qpower_opp, <- !Zpower_Qpower by assumption. reflexivity.
Qed.

(** The scaled value has at least [p] digits before the point. *)
Lemma sig_exponent_lower (b p : Z) (q : Q) :
  2 <= b -> (0 < q)%Q ->
  (Qpow b (p - 1) <= Qabs q / Qpow b (sig_exponent b p q))%Q.
Proof.
  intros Hb Hq.
  assert (Hb0 : 0 < b) by lia.
  assert (Hn : 0 < Qnum q) by (unfold Qlt in Hq; cbn in Hq; lia).
  unfold sig_exponent.
  set (dn := ndigits b (Z.abs (Qnum q))).
  set (dd := ndigits b (Z.pos (Qden q))).
  set (e0 := dn - dd - p).
  destruct (Qle_bool (Qpow b p) (Qabs q / Qpow b e0)) eqn:E.
  - apply Qle_bool_iff in E.
    pose proof (Qpow_pos b e0 Hb0) as HP0.
    pose proof (Qpow_pos b (e0 + 1) Hb0) as HP1.
    apply Qle_shift_div_l; [exact HP1|].
    assert (E' : (Qpow b p * Qpow b e0 <= Qabs q)%Q).
    { setoid_replace (Qabs q) with (Qabs q / Qpow b e0 * Qpow b e0)%Q.
      - apply Qmult_le_compat_r; [exact E | now apply Qlt_le_weak].
      - field. intro H. rewrite H in HP0. discriminate HP0. }
    clear E. rename E' into E.
    rewrite Qpow_succ by exact Hb0.
    replace p with (p - 1 + 1) in E at 1 by lia.
    rewrite Qpow_succ in E by exact Hb0.
    assert (Hbq : (0 < inject_Z b)%Q).
    { change 0%Q with (inject_Z 0). now rewrite <- Zlt_Qlt. }
    setoid_replace (Qpow b (p - 1) * (Qpow b e0 * inject_Z b))%Q
      with (Qpow b (p - 1) * inject_Z b * Qpow b e0)%Q by ring.
    exact E.
  - clear E.
    pose proof (Qpow_pos b e0 Hb0) as HP0.
    apply Qle_shift_div_l; [exact HP0|].
    destruct (ndigits_spec b (Z.abs (Qnum q)) Hb ltac:(lia)) as [Hkn [Hlo _]].
    destruct (ndigits_spec b (Z.pos (Qden q)) Hb ltac:(lia)) as [Hkd [_ Hhi]].
    fold dn in Hkn, Hlo. fold dd in Hkd, Hhi.
    assert (Hmul : (Qpow b (p - 1) * Qpow b e0 == Qpow b (dn - 1 - dd))%Q).
    { unfold Qpow. rewrite <- Qpower_plus.
      - unfold e0. now replace (p - 1 + (dn - dd - p)) with (dn - 1 - dd) by lia.
      - intro H. unfold Qeq in H. cbn in H. lia. }
    rewrite Hmul, Qpow_quotient by lia.
    rewrite Qabs_pos by now apply Qlt_le_weak.
    assert (Hd : (0 < inject_Z (b ^ dd))%Q).
    { change 0%Q with (inject_Z 0). rewrite <- Zlt_Qlt. apply Z.pow_pos_nonneg; lia. }
    apply Qle_shift_div_r; [exact Hd|].
    unfold Qle, Qmult, inject_Z. cbn [Qnum Qden].
    rewrite Z.abs_eq in Hlo by lia.
    rewrite Pos2Z.inj_mul. nia.
Qed.

(** Rounding a positive value gives a positive value. *)
Lemma round_sig_pos (b p : Z) (q : Q) :
  2 <= b -> 1 <= p -> (0 < q)%Q -> (0 < round_sig b p q)%Q.
Proof.
  intros Hb Hp Hq.
  assert (Hn : 0 < Qnum q) by (unfold Qlt in Hq; cbn in Hq; lia).
  pose proof (sig_exponent_lower b p q Hb Hq) as Hlow.
  unfold round_sig. destruct (Qnum q) as [|n|n] eqn:En; try lia.
  rewrite Qred_correct. change (Z.sgn (Z.pos n)) with 1. rewrite Z.mul_1_l.
  set (e := sig_exponent b p q) in *.
  assert (Hc : 1 <= Qround_half_even (Qabs q / Qpow b e)).
  { apply Qround_half_even_lower. eapply Qle_trans; [|exact Hlow].
    rewrite Qpow_nonneg_exp by lia.
    rewrite <- Zle_Qle. apply (Z.pow_le_mono_r b 0 (p - 1)); lia. }
  set (c := Qround_half_even _) in *.
  apply Qmult_lt_0_compat.
  - change 0%Q with (inject_Z 0). rewrite <- Zlt_Qlt. lia.
  - apply Qpow_pos. lia.
Qed.

End RoundingMore.

(* ================================================================== *)
(** ** The complex-word ratio, in general *)

Lemma filterM_filter {A} (f : A -> result bool) (g : A -> bool) (l : list A) :
  (forall x, In x l -> f x = Ok (g x)) -> filterM f l = Ok (filter g l).
Proof.
  induction l as [|x l IH]; intro H; [reflexivity|].
  cbn [filterM filter bind].
  rewrite (H x (or_introl eq_refl)). cbn [bind].
  rewrite IH by (intros y Hy; apply H; now right). reflexivity.
Qed.

Lemma complex_test (text w : string) :
  In w (str_split " " text) ->
  (s <- _count_syllables w ;; Ok (py_ge s (VInt 3))) = Ok (Spec.is_complex w).
Proof.
  intro Hin.
  pose proof (str_split_no_sep " " text) as Hall.
  rewrite Forall_forall in Hall. specialize (Hall w Hin).
  unfold _count_syllables. rewrite (str_split_single _ _ Hall).
  unfold Spec.is_complex. cbn [map].
  destruct (syllable_count_shape w) as [z [-> | ->]].
  - reflexivity.
  - unfold py_sum. cbn [fold_left bind py_add arith value D].
    unfold py_ge. cbn [value].
    replace (inject_Z 0 + inject_Z z)%Q with (inject_Z z).
    + unfold D. cbn [value]. change (inject_Z 3) with 3%Q.
      now rewrite round_ctx_threshold.
    + unfold Qplus, inject_Z. cbn [Qnum Qden]. f_equal. lia.
Qed.

Lemma count_words_counts (text : string) :
  (0 < len text)%nat -> _count_words text = VDec (inject_Z (Counts.words text)).
Proof. apply count_words_nonempty. Qed.

Lemma count_sentences_counts (text : string) :
  (0 < len text)%nat -> _count_sentences text = VDec (inject_Z (Counts.sentences text)).
Proof. apply count_sentences_nonempty. Qed.

Lemma words_pos (text : string) : 1 <= Counts.words text.
Proof. unfold Counts.words. lia. Qed.

Lemma sentences_pos (text : string) : 1 <= Counts.sentences text.
Proof. unfold Counts.sentences. lia. Qed.

Lemma words_split (text : string) :
  Z.of_nat (List.length (str_split " " text)) = Counts.words text.
Proof. rewrite length_str_split. unfold Counts.words. lia. Qed.

(** Division by a Decimal that is not zero, of an int or a Decimal. *)
Lemma py_div_dec (a : pyval) (z : Z) :
  is_float a = false -> 1 <= z ->
  py_div a (VDec (inject_Z z)) = Ok (VDec (Dec.div (value a) (inject_Z z))).
Proof.
  intros Ha Hz. unfold py_div, is_zero. cbn [value Qnum inject_Z].
  destruct (Z.eqb_spec z 0) as [E|_]; [lia|].
  destruct a; [reflexivity|reflexivity|discriminate Ha].
Qed.

(** X11. [_count_complex_words] returns, on every text, the Decimal
    quotient of the number of words whose estimate is 3 or more by the
    number of words: a ratio, not a count. *)
Theorem count_complex_words_ratio :
  forall text : string,
    _count_complex_words text =
    Ok (VDec (Dec.div (inject_Z (Spec.complex_word_count text))
                      (inject_Z (Z.of_nat (List.length (str_split " " text)))))).
Proof.
  intro text. unfold _count_complex_words.
  rewrite (filterM_filter _ Spec.is_complex)
    by (intros w Hw; now apply complex_test with text).
  cbn [bind]. fold (Spec.complex_word_count text).
  apply (py_div_dec (D (VInt _))); [reflexivity|].
  rewrite words_split. apply words_pos.
Qed.


(* ================================================================== *)
(** ** The formulas, in general *)

Lemma count_letters_counts (text : string) :
  _count_letters text = VInt (Counts.letters text).
Proof.
  unfold _count_letters, sub_empty, _re_letters_and_digits, Counts.letters.
  rewrite sub_Chr_remove. fold alnum. now rewrite len_remove_neg.
Qed.

Lemma len_zero_empty (text : string) : len text = 0%nat -> text = "".
Proof. destruct text; [reflexivity|discriminate]. Qed.

Ltac formula_nonempty Hlen :=
  unfold clean_text;
  rewrite ?(count_words_counts _ Hlen), ?(count_sentences_counts _ Hlen),
    ?count_letters_counts.

Ltac formula_eval :=
  unfold py_mul, py_add, py_sub, arith, D, float_lit,
    Dec.sub, Dec.add, Dec.mul, Dec.div, Dec.of_float;
  cbn [bind value];
  reflexivity.

(** X12. [automated_readability_index] raises ZeroDivisionError on the
    empty text; on any other text it returns the Decimal
    4.71f * (letters / words) + 0.5f * (words / sentences) - 21.43f, where
    each constant is the binary64 value of its literal and each operation
    rounds to the context. *)
Theorem automated_readability_index_spec :
  forall text : string,
    (len text = 0%nat -> automated_readability_index text = Raise ZeroDivisionError)
    /\ ((0 < len text)%nat ->
        let W := inject_Z (Counts.words text) in
        let S := inject_Z (Counts.sentences text) in
        let L := inject_Z (Counts.letters text) in
        automated_readability_index text =
        Ok (VDec (Dec.sub
                    (Dec.add (Dec.mul (Dec.of_float 4.71) (Dec.div L W))
                             (Dec.mul (Dec.of_float 0.5) (Dec.div W S)))
                    (Dec.of_float 21.43)))).
Proof.
  intro text. split.
  - intro H. apply len_zero_empty in H. subst. vm_compute. reflexivity.
  - intros Hlen W S L. unfold automated_readability_index.
    formula_nonempty Hlen.
    rewrite !py_div_dec by (reflexivity || apply words_pos || apply sentences_pos).
    formula_eval.
Qed.

Lemma automated_readability_index_spec_witness :
  automated_readability_index "" = Raise ZeroDivisionError
  /\ exists q, automated_readability_index "The cat sat." = Ok (VDec q).
Proof.
  split.
  - apply (proj1 (automated_readability_index_spec "")). reflexivity.
  - eexists. apply (proj2 (automated_readability_index_spec "The cat sat.")).
    vm_compute. lia.
Defined.

(** X13. [coleman_liau_index] raises ZeroDivisionError on the empty text;
    on any other text it returns the Decimal
    0.0588f * L - 0.296f * S - 15.8f with L = (letters / words) * 100 and
    S = (sentences / words) * 100. *)
Theorem coleman_liau_index_spec :
  forall text : string,
    (len text = 0%nat -> coleman_liau_index text = Raise ZeroDivisionError)
    /\ ((0 < len text)%nat ->
        let W := inject_Z (Counts.words text) in
        let S := inject_Z (Counts.sentences text) in
        let L := inject_Z (Counts.letters text) in
        coleman_liau_index text =
        Ok (VDec (Dec.sub
                    (Dec.sub (Dec.mul (Dec.of_float 0.0588) (Dec.mul (Dec.div L W) 100))
                             (Dec.mul (Dec.of_float 0.296) (Dec.mul (Dec.div S W) 100)))
                    (Dec.of_float 15.8)))).
Proof.
  intro text. split.
  - intro H. apply len_zero_empty in H. subst. vm_compute. reflexivity.
  - intros Hlen W S L. unfold coleman_liau_index.
    formula_nonempty Hlen.
    rewrite !py_div_dec by (reflexivity || apply words_pos || apply sentences_pos).
    formula_eval.
Qed.

Lemma coleman_liau_index_spec_witness :
  coleman_liau_index "" = Raise ZeroDivisionError
  /\ exists q, coleman_liau_index "The cat sat." = Ok (VDec q).
Proof.
  split.
  - apply (proj1 (coleman_liau_index_spec "")). reflexivity.
  - eexists. apply (proj2 (coleman_liau_index_spec "The cat sat.")).
    vm_compute. lia.
Defined.

(** X14. [flesch_kincaid_reading_ease] raises ZeroDivisionError on the
    empty text; on any other text [_count_syllables] returns a Decimal and
    the score is the Decimal
    206.835f - 1.015f * (words / sentences) - 84.6f * (syllables / words). *)
Theorem flesch_kincaid_reading_ease_spec :
  forall text : string,
    (len text = 0%nat -> flesch_kincaid_reading_ease text = Raise ZeroDivisionError)
    /\ ((0 < len text)%nat ->
        let W := inject_Z (Counts.words text) in
        let S := inject_Z (Counts.sentences text) in
        exists Y : Q,
          _count_syllables text = Ok (VDec Y)
          /\ flesch_kincaid_reading_ease text =
             Ok (VDec (Dec.sub
                         (Dec.sub (Dec.of_float 206.835)
                                  (Dec.mul (Dec.of_float 1.015) (Dec.div W S)))
                         (Dec.mul (Dec.of_float 84.6) (Dec.div Y W))))).
Proof.
  intro text. split.
  - intro H. apply len_zero_empty in H. subst. vm_compute. reflexivity.
  - intros Hlen W S. unfold flesch_kincaid_reading_ease.
    formula_nonempty Hlen.
    destruct (count_syllables_ok text) as [Y HY]. exists Y. split; [exact HY|].
    rewrite HY. cbn [bind].
    rewrite !py_div_dec by (reflexivity || apply words_pos || apply sentences_pos).
    formula_eval.
Qed.

Lemma flesch_kincaid_reading_ease_spec_witness :
  flesch_kincaid_reading_ease "" = Raise ZeroDivisionError
  /\ exists q, flesch_kincaid_reading_ease "The cat sat." = Ok (VDec q).
Proof.
  split.
  - apply (proj1 (flesch_kincaid_reading_ease_spec "")). reflexivity.
  - destruct (proj2 (flesch_kincaid_reading_ease_spec "The cat sat.")) as [Y [_ H]].
    + vm_compute. lia.
    + eexists. exact H.
Defined.

(** X15. [flesch_kincaid_grade_level] raises ZeroDivisionError on the empty
    text; on any other text the score is the Decimal
    0.39f * (words / sentences) + 11.8f * (syllables / words) - 15.59f. *)
Theorem flesch_kincaid_grade_level_spec :
  forall text : string,
    (len text = 0%nat -> flesch_kincaid_grade_level text = Raise ZeroDivisionError)
    /\ ((0 < len text)%nat ->
        let W := inject_Z (Counts.words text) in
        let S := inject_Z (Counts.sentences text) in
        exists Y : Q,
          _count_syllables text = Ok (VDec Y)
          /\ flesch_kincaid_grade_level text =
             Ok (VDec (Dec.sub
                         (Dec.add (Dec.mul (Dec.of_float 0.39) (Dec.div W S))
                                  (Dec.mul (Dec.of_float 11.8) (Dec.div Y W)))
                         (Dec.of_float 15.59)))).
Proof.
  intro text. split.
  - intro H. apply len_zero_empty in H. subst. vm_compute. reflexivity.
  - intros Hlen W S. unfold flesch_kincaid_grade_level.
    formula_nonempty Hlen.
    destruct (count_syllables_ok text) as [Y HY]. exists Y. split; [exact HY|].
    rewrite HY. cbn [bind].
    rewrite !py_div_dec by (reflexivity || apply words_pos || apply sentences_pos).
    formula_eval.
Qed.

Lemma flesch_kincaid_grade_level_spec_witness :
  flesch_kincaid_grade_level "" = Raise ZeroDivisionError
  /\ exists q, flesch_kincaid_grade_level "The cat sat." = Ok (VDec q).
Proof.
  split.
  - apply (proj1 (flesch_kincaid_grade_level_spec "")). reflexivity.
  - destruct (proj2 (flesch_kincaid_grade_level_spec "The cat sat.")) as [Y [_ H]].
    + vm_compute. lia.
    + eexists. exact H.
Defined.

Lemma count_complex_words_counts (text : string) :
  _count_complex_words text =
  Ok (VDec (Dec.div (inject_Z (Counts.complex_words text)) (inject_Z (Counts.words text)))).
Proof.
  unfold _count_complex_words.
  rewrite (filterM_filter _ Spec.is_complex)
    by (intros w Hw; now apply complex_test with text).
  cbn [bind]. fold (Spec.complex_word_count text).
  rewrite words_split.
  apply (py_div_dec (D (VInt _))); [reflexivity|apply words_pos].
Qed.

(** X16. [gunning_fog_score] raises ZeroDivisionError on the empty text; on
    any other text the score is the Decimal
    0.4f * ((words / sentences) + 100 * ((complex / words) / words)): the
    number of complex words is divided by the number of words twice. *)
Theorem gunning_fog_score_spec :
  forall text : string,
    (len text = 0%nat -> gunning_fog_score text = Raise ZeroDivisionError)
    /\ ((0 < len text)%nat ->
        let W := inject_Z (Counts.words text) in
        let S := inject_Z (Counts.sentences text) in
        let K := inject_Z (Counts.complex_words text) in
        gunning_fog_score text =
        Ok (VDec (Dec.mul (Dec.of_float 0.4)
                          (Dec.add (Dec.div W S)
                                   (Dec.mul 100 (Dec.div (Dec.div K W) W)))))).
Proof.
  intro text. split.
  - intro H. apply len_zero_empty in H. subst. vm_compute. reflexivity.
  - intros Hlen W S K. unfold gunning_fog_score.
    formula_nonempty Hlen.
    rewrite count_complex_words_counts. cbn [bind].
    rewrite !py_div_dec by (reflexivity || apply words_pos || apply sentences_pos).
    formula_eval.
Qed.

Lemma gunning_fog_score_spec_witness :
  gunning_fog_score "" = Raise ZeroDivisionError
  /\ exists q, gunning_fog_score "The cat sat." = Ok (VDec q).
Proof.
  split.
  - apply (proj1 (gunning_fog_score_spec "")). reflexivity.
  - eexists. apply (proj2 (gunning_fog_score_spec "The cat sat.")).
    vm_compute. lia.
Defined.

Lemma Dec_div_nonneg (a b : Z) :
  0 <= a -> 1 <= b -> (0 <= Dec.div (inject_Z a) (inject_Z b))%Q.
Proof.
  intros Ha Hb. unfold Dec.div, round_ctx. apply round_sig_nonneg; [lia|].
  apply Qle_shift_div_l.
  - change 0%Q with (inject_Z 0). rewrite <- Zlt_Qlt. lia.
  - rewrite Qmult_0_l. change 0%Q with (inject_Z 0). rewrite <- Zle_Qle. lia.
Qed.

Lemma complex_words_nonneg (text : string) : 0 <= Counts.complex_words text.
Proof. unfold Counts.complex_words, Spec.complex_word_count. lia. Qed.

(** The value under the root of [smog_index] is positive. *)
Lemma smog_radicand_pos (text : string) :
  let W := inject_Z (Counts.words text) in
  let S := inject_Z (Counts.sentences text) in
  let K := inject_Z (Counts.complex_words text) in
  (0 < Dec.add (Dec.mul (Dec.div K W) (Dec.div 30 S)) (Dec.of_float 3.1291))%Q.
Proof.
  intros W S K. unfold Dec.add at 1, round_ctx. apply round_sig_pos; [lia|lia|].
  assert (Ha : (0 <= Dec.mul (Dec.div K W) (Dec.div 30 S))%Q).
  { unfold Dec.mul, round_ctx. apply round_sig_nonneg; [lia|]. apply Qmult_le_0_compat.
    - apply Dec_div_nonneg; [apply complex_words_nonneg | apply words_pos].
    - apply (Dec_div_nonneg 30); [lia | apply sentences_pos]. }
  set (a := Dec.mul _ _) in *.
  assert (Hc : (0 < Dec.of_float 3.1291)%Q) by (vm_compute; reflexivity).
  set (c := Dec.of_float _) in *.
  apply (Qlt_le_trans _ (0 + c)).
  - now rewrite Qplus_0_l.
  - apply Qplus_le_l. exact Ha.
Qed.

(** X17. [smog_index] raises decimal.DivisionByZero on the empty text; on
    any other text the value under the root,
    (complex / words) * (30 / sentences) + 3.1291f, is positive, so the root
    is defined, and the score is the Decimal 1.043f * sqrt(...), the root
    being taken in binary64. *)
Theorem smog_index_spec :
  forall text : string,
    (len text = 0%nat -> smog_index text = Raise DivisionByZero)
    /\ ((0 < len text)%nat ->
        let W := inject_Z (Counts.words text) in
        let S := inject_Z (Counts.sentences text) in
        let K := inject_Z (Counts.complex_words text) in
        let R := Dec.add (Dec.mul (Dec.div K W) (Dec.div 30 S)) (Dec.of_float 3.1291) in
        (0 < R)%Q
        /\ smog_index text =
           Ok (VDec (Dec.mul (Dec.of_float 1.043) (fsqrt (binary64 R))))).
Proof.
  intro text. split.
  - intro H. apply len_zero_empty in H. subst. vm_compute. reflexivity.
  - intros Hlen W S K R.
    pose proof (smog_radicand_pos text) as HR. cbv zeta in HR. fold W S K R in HR.
    split; [exact HR|].
    unfold smog_index. formula_nonempty Hlen.
    rewrite count_complex_words_counts. cbn [bind].
    rewrite (py_div_dec (D (VInt 30))) by (reflexivity || apply sentences_pos).
    unfold py_mul, py_add, arith, D, float_lit. cbn [bind value].
    fold W S K. change (inject_Z 30) with 30%Q.
    unfold math_sqrt. cbn [bind value].
    assert (Hb : (0 < binary64 R)%Q).
    { unfold binary64. apply round_sig_pos; [lia|lia|exact HR]. }
    unfold R, Dec.add, Dec.mul, Dec.div, Dec.of_float in Hb |- *.
    match goal with
    | |- context [Qnum (binary64 ?x)] =>
        destruct (Qnum (binary64 x)) as [|n|n] eqn:En;
          try (exfalso; unfold Qlt in Hb; rewrite En in Hb; cbn in Hb; lia)
    end.
    cbn [bind]. formula_eval.
Qed.

Lemma smog_index_spec_witness :
  smog_index "" = Raise DivisionByZero
  /\ exists q, smog_index "The cat sat." = Ok (VDec q).
Proof.
  split.
  - apply (proj1 (smog_index_spec "")). reflexivity.
  - eexists. apply (proj2 (smog_index_spec "The cat sat.")).
    vm_compute. lia.
Defined.

(* ================================================================== *)
(** ** Joining texts *)

Lemma str_split_app (sep : ascii) (a b : string) :
  str_split sep (a ++ String sep b) = (str_split sep a ++ str_split sep b)%list.
Proof.
  induction a as [|c a IH].
  - cbn [append str_split]. now rewrite Ascii.eqb_refl.
  - cbn [append str_split]. rewrite IH.
    destruct (Ascii.eqb c sep); [reflexivity|].
    destruct (str_split_cons sep a) as [w [ws ->]]. reflexivity.
Qed.

(** X18. Joining two texts with one space concatenates their word lists,
    and so adds their numbers of complex words. *)
Theorem complex_word_count_join :
  forall a b : string,
    str_split " " (a ++ " " ++ b) = (str_split " " a ++ str_split " " b)%list
    /\ Spec.complex_word_count (a ++ " " ++ b)
       = Spec.complex_word_count a + Spec.complex_word_count b.
Proof.
  intros a b. change (" " ++ b) with (String " " b).
  split; [apply str_split_app|].
  unfold Spec.complex_word_count.
  rewrite str_split_app, filter_app, length_app. lia.
Qed.

(* ================================================================== *)
(** ** The word parts are the vowel groups *)

Lemma many_greedy (c : cls) (s : string) :
  forall (n : nat) (bos : bool),
    many c n bos s (fun _ t => Some t) =
    if (n <=? run_length c s)%nat then Some (skip_class c s) else None.
Proof.
  induction s as [|a s IH]; intros n bos.
  - cbn [many run_length skip_class]. now destruct n.
  - cbn [many run_length skip_class]. destruct (c a) eqn:Ea.
    + rewrite IH. destruct n as [|n]; cbn [pred Nat.leb]; [reflexivity|].
      now destruct (n <=? run_length c s)%nat.
    + now destruct n.
Qed.

Lemma len_skip_class (c : cls) (s : string) :
  (len s - len (skip_class c s) = run_length c s)%nat.
Proof.
  unfold len. induction s as [|a s IH]; [reflexivity|].
  cbn [skip_class run_length]. destruct (c a).
  - cbn [String.length].
    assert (String.length (skip_class c s) <= String.length s)%nat.
    { clear. induction s as [|b s IH]; [apply le_n|]. cbn [skip_class].
      destruct (c b); cbn [String.length]; lia. }
    lia.
  - lia.
Qed.

Lemma match_at_many1 (c : cls) (bos : bool) (s : string) :
  match_at (Many 1 c) bos s =
  match run_length c s with
  | O => None
  | S j => Some (S j)
  end.
Proof.
  unfold match_at. cbn [m]. rewrite many_greedy.
  pose proof (len_skip_class c s) as H.
  destruct (run_length c s) as [|j]; cbn [Nat.leb]; [reflexivity|].
  now rewrite H.
Qed.

Lemma split_from_skip (r : re) (s : string) :
  forall (k : nat) (b : bool),
    split_from r b s (S k) = split_from r false (drop (S k) s) 0.
Proof.
  induction s as [|a s IH]; intros k b.
  - reflexivity.
  - cbn [split_from drop]. destruct k as [|k].
    + now destruct s.
    + apply IH.
Qed.

Lemma drop_run_length (c : cls) (s : string) :
  drop (run_length c s) s = skip_class c s.
Proof.
  induction s as [|a s IH]; [reflexivity|].
  cbn [run_length skip_class]. destruct (c a); [|reflexivity].
  cbn [drop]. exact IH.
Qed.

Lemma vowel_groups_skip (inside : bool) (s : string) :
  match s with
  | String a _ => vowel a = false
  | EmptyString => True
  end ->
  vowel_groups inside s = vowel_groups false (skip_class (neg vowel) s).
Proof.
  revert inside. induction s as [|a s IH]; intros inside Ha; [reflexivity|].
  cbn [vowel_groups skip_class]. unfold neg at 1. rewrite Ha. cbn [negb].
  destruct s as [|b s]; [reflexivity|].
  destruct (vowel b) eqn:Eb.
  - cbn [skip_class]. unfold neg at 1. rewrite Eb. reflexivity.
  - now apply IH.
Qed.

Lemma count_word_parts_cons (p : string) (ps : list string) :
  count_word_parts (p :: ps) =
  (if String.eqb p "" then 0 else 1) + count_word_parts ps.
Proof.
  unfold count_word_parts. cbn [fold_left].
  assert (H : forall l n, fold_left
            (fun word_part_count word_part =>
               if String.eqb word_part "" then word_part_count else word_part_count + 1)
            l n
          = n + fold_left
            (fun word_part_count word_part =>
               if String.eqb word_part "" then word_part_count else word_part_count + 1)
            l 0).
  { induction l as [|x l IHl]; intro n; cbn [fold_left]; [lia|].
    rewrite IHl. rewrite (IHl (if String.eqb x "" then 0 else 0 + 1)).
    destruct (String.eqb x ""); lia. }
  rewrite H. destruct (String.eqb p ""); lia.
Qed.

Lemma pieces_count_false (ps : list string) :
  pieces_count false ps = count_word_parts ps.
Proof.
  destruct ps as [|p ps]; [reflexivity|].
  cbn [pieces_count]. now rewrite count_word_parts_cons.
Qed.

(** The pieces between the runs of non-vowels are the runs of vowels. *)
Lemma split_word_parts_groups (n : nat) :
  forall (s : string) (bos inside : bool),
    (len s <= n)%nat ->
    pieces_count inside (split_from _re_syllable_word_parts bos s 0)
    = vowel_groups inside s.
Proof.
  unfold _re_syllable_word_parts.
  induction n as [|n IH]; intros s bos inside Hn.
  - destruct s; [now destruct inside|]. unfold len in Hn. cbn [String.length] in Hn. lia.
  - destruct s as [|a s]; [now destruct inside|].
    assert (Hs : (len s <= n)%nat) by (unfold len in *; cbn [String.length] in Hn; lia).
    cbn [split_from]. rewrite match_at_many1.
    cbn [run_length vowel_groups]. unfold neg at 1.
    destruct (vowel a) eqn:Ea; cbn [negb].
    + pose proof (IH s false true Hs) as IHs.
      destruct (split_from (Many 1 (neg vowel)) false s 0) as [|p ps] eqn:Ep.
      * cbn [pieces_count] in *. rewrite <- IHs.
        destruct inside; reflexivity.
      * cbn [pieces_count] in *. rewrite <- IHs.
        destruct inside; reflexivity.
    + destruct (run_length (neg vowel) s) as [|j] eqn:Ej.
      * cbn [pieces_count]. rewrite <- pieces_count_false, (IH s false false Hs).
        destruct inside; reflexivity.
      * rewrite split_from_skip, <- Ej, drop_run_length.
        cbn [pieces_count]. rewrite <- pieces_count_false.
        rewrite IH.
        -- destruct s as [|b s']; [discriminate Ej|].
           cbn [run_length] in Ej. unfold neg at 1 in Ej.
           destruct (vowel b) eqn:Eb; [discriminate Ej|].
           rewrite (vowel_groups_skip false (String b s') Eb).
           destruct inside; reflexivity.
        -- pose proof (len_skip_class (neg vowel) s). lia.
Qed.

(** X19. The count of word parts, the base of the estimate, is the number
    of maximal runs of the vowels a, e, i, o, u, y in the stripped word. *)
Theorem word_part_count_is_vowel_groups :
  forall text : string,
    count_word_parts (Re.split _re_syllable_word_parts text) = vowel_groups false text.
Proof.
  intro text. rewrite <- pieces_count_false. unfold Re.split.
  apply (split_word_parts_groups (len text)). apply le_n.
Qed.
